(** * Memory-aware chunking utilities: a model of [src/rcpp_chunking.cpp]

    The C++ file exports six functions to R: the RAM reader, the threshold
    monitor, the chunk-size planner, the two array chunkers and the system
    memory reporter.  This development embeds them and settles the
    properties the specification states about them.

    Conventions of the embedding:
    - a C++ [int] is a [Z] kept in the 32-bit two's complement range, every
      arithmetic result being wrapped by [Int32.wrap], as the compiled code
      does where the language leaves signed overflow open;
    - a C++ [double] is an IEEE 754 binary64 number, [spec_float] with the
      operations of [SpecFloat] at precision 53 and maximal exponent 1024;
    - a call either returns, raises an R condition, or faults, that is,
      does something the language leaves undefined ([outcome]);
    - what the operating system and the stream library deliver (counters,
      the lines of the status file, the number extracted from a line, the
      content of a variable read before it is written) is a parameter. *)

From Stdlib Require Import String Ascii.
From Stdlib Require Import ZArith List Lia Bool.
From Stdlib Require Import Floats.SpecFloat.
Import ListNotations.

Local Open Scope Z_scope.

(** ** 32-bit signed integers *)

Module Int32.

Definition INT_MIN : Z := - 2 ^ 31.
Definition INT_MAX : Z := 2 ^ 31 - 1.

Definition in_range (z : Z) : Prop := INT_MIN <= z <= INT_MAX.

(** Reduction of a mathematical result to the representable residue. *)
Definition wrap (z : Z) : Z := (z + 2 ^ 31) mod 2 ^ 32 - 2 ^ 31.

Definition add (a b : Z) : Z := wrap (a + b).
Definition sub (a b : Z) : Z := wrap (a - b).
Definition mul (a b : Z) : Z := wrap (a * b).

(** [a / b] truncates toward zero.  A zero divisor, and the quotient
    [INT_MIN / -1], have no result: the language leaves the behaviour
    undefined. *)
Definition div (a b : Z) : option Z :=
  if b =? 0 then None
  else if (a =? INT_MIN) && (b =? -1) then None
  else Some (Z.quot a b).

(** [std::min] on [int]. *)
Definition min (a b : Z) : Z := if b <? a then b else a.

End Int32.

(** ** Binary64 floating point *)

Module Double.

Definition double : Type := spec_float.

Definition prec : Z := 53.
Definition emax : Z := 1024.

Definition mul : double -> double -> double := SFmul prec emax.
Definition div : double -> double -> double := SFdiv prec emax.

(** [x > y]; false as soon as one side is a NaN. *)
Definition gt (x y : double) : bool := SFltb y x.
Definition le (x y : double) : bool := SFleb x y.

(** Conversion of an integer to [double], rounding to nearest even.  It is
    exact on every [int]. *)
Definition of_Z (z : Z) : double := binary_normalize prec emax z 0 false.

Definition zero : double := S754_zero false.

Definition is_finite (x : double) : bool :=
  match x with
  | S754_zero _ | S754_finite _ _ _ => true
  | S754_infinity _ | S754_nan => false
  end.

(** The integer part of a finite number, rounded toward minus infinity
    ([floor_Z]) or toward zero ([trunc_Z]). *)
Definition floor_Z (s : bool) (m : positive) (e : Z) : Z :=
  let v := cond_Zopp s (Zpos m) in
  if 0 <=? e then v * 2 ^ e else v / 2 ^ (- e).

Definition trunc_Z (s : bool) (m : positive) (e : Z) : Z :=
  let v := cond_Zopp s (Zpos m) in
  if 0 <=? e then v * 2 ^ e else Z.quot v (2 ^ (- e)).

(** [std::floor]: zeros, infinities and NaN are returned unchanged; a
    finite number that rounds down to zero keeps its sign. *)
Definition floor (x : double) : double :=
  match x with
  | S754_finite s m e =>
      if 0 <=? e then x else binary_normalize prec emax (floor_Z s m e) 0 s
  | _ => x
  end.

(** [static_cast<int>]: truncation toward zero, defined when the truncated
    value is representable as an [int]; [None] otherwise (NaN, infinities
    and out of range values). *)
Definition to_int (x : double) : option Z :=
  match x with
  | S754_zero _ => Some 0
  | S754_finite s m e =>
      let z := trunc_Z s m e in
      if (Int32.INT_MIN <=? z) && (z <=? Int32.INT_MAX) then Some z else None
  | S754_infinity _ | S754_nan => None
  end.

End Double.

Import Double.

(** ** Outcomes of a call *)

(** R conditions that can reach the caller.  [InvalidArgument] is the
    argument-validation failure the specification speaks of; the source
    has no statement that raises it.  [NegativeLength] stands for the
    errors with which R refuses a negative extent: that of
    [Rf_allocVector] for a negative length, and that of the [dim]
    attribute for a negative dimension, which is the one a matrix of
    negative row count and no columns meets. *)
Inductive condition : Type :=
| InvalidArgument
| NegativeLength.

(** How a call ends: it returns, it stops on an R condition, or it does
    something for which the language defines no behaviour ([Fault]): an
    integer division by zero or of [INT_MIN] by [-1], an access outside
    the storage of a vector.  What a fault looks like is a matter of the
    target; x86-64 traps on both divisions, AArch64 does not. *)
Inductive outcome (A : Type) : Type :=
| Returned (a : A)
| Raised (c : condition)
| Fault.

Arguments Returned {A} a.
Arguments Raised {A} c.
Arguments Fault {A}.

Definition bind {A B : Type} (o : outcome A) (k : A -> outcome B) : outcome B :=
  match o with
  | Returned a => k a
  | Raised c => Raised c
  | Fault => Fault
  end.

Notation "x <- c1 ;; c2" := (bind c1 (fun x => c2))
  (at level 61, c1 at next level, right associativity).

Definition of_option {A : Type} (o : option A) : outcome A :=
  match o with
  | Some a => Returned a
  | None => Fault
  end.

(** [for (int i = 0; i < n; i++) body], threading the state the body
    updates.  The counter stays below [n], so [i++] never wraps. *)
Fixpoint for_each {S : Type} (body : Z -> S -> outcome S) (idx : list Z) (s : S)
  : outcome S :=
  match idx with
  | [] => Returned s
  | i :: rest => s' <- body i s ;; for_each body rest s'
  end.

Definition upto (n : Z) : list Z := map Z.of_nat (seq 0 (Z.to_nat n)).

Definition for_loop {S : Type} (n : Z) (body : Z -> S -> outcome S) (s : S)
  : outcome S :=
  for_each body (upto n) s.

(** ** R vectors *)

(** Writing slot [i] of a list; nothing changes when [i] is past the end. *)
Fixpoint list_set {A : Type} (l : list A) (i : nat) (v : A) : list A :=
  match l, i with
  | [], _ => []
  | _ :: l', O => v :: l'
  | a :: l', S i' => a :: list_set l' i' v
  end.

(** Unchecked element access, as [operator[]] and [operator()] of Rcpp do it:
    an index outside the storage is a fault. *)
Definition load {A : Type} (l : list A) (i : Z) : outcome A :=
  if i <? 0 then Fault else of_option (nth_error l (Z.to_nat i)).

Definition store {A : Type} (l : list A) (i : Z) (v : A) : outcome (list A) :=
  if (0 <=? i) && (i <? Z.of_nat (length l))
  then Returned (list_set l (Z.to_nat i) v)
  else Fault.

(** Allocation of [len] slots filled with [init].  R refuses a negative
    length. *)
Definition allocate {A : Type} (init : A) (len : Z) : outcome (list A) :=
  if len <? 0 then Raised NegativeLength
  else Returned (repeat init (Z.to_nat len)).

Definition NumericVector : Type := list double.

(** A matrix is a vector with dimensions, stored column by column. *)
Record NumericMatrix : Type := {
  nrow : Z;
  ncol : Z;
  cells : list double
}.

(** [mat(r, c)]: the offset is computed at pointer width, so it does not
    wrap. *)
Definition offset (m_nrow r c : Z) : Z := r + m_nrow * c.

(** What an R list can hold here. *)
Inductive SEXP : Type :=
| R_NilValue
| REALSXP (v : NumericVector)
| MATSXP (m : NumericMatrix).

Definition List : Type := list SEXP.

(** ** Array Chunker *)

Definition split_vector_chunks (x : NumericVector) (chunk_size : Z)
  : outcome List :=
  let n := Int32.wrap (Z.of_nat (length x)) in
  num_chunks <- of_option
    (Int32.div (Int32.sub (Int32.add n chunk_size) 1) chunk_size) ;;
  result <- allocate R_NilValue num_chunks ;;
  for_loop num_chunks (fun i result =>
    let start := Int32.mul i chunk_size in
    let end_ := Int32.min (Int32.add start chunk_size) n in
    let chunk_len := Int32.sub end_ start in
    chunk <- allocate zero chunk_len ;;
    chunk <- for_loop chunk_len (fun j chunk =>
      v <- load x (Int32.add start j) ;;
      store chunk j v) chunk ;;
    store result i (REALSXP chunk)) result.

Definition split_matrix_chunks (mat : NumericMatrix) (chunk_size : Z)
  : outcome List :=
  let nrows := nrow mat in
  let ncols := ncol mat in
  num_chunks <- of_option
    (Int32.div (Int32.sub (Int32.add nrows chunk_size) 1) chunk_size) ;;
  result <- allocate R_NilValue num_chunks ;;
  for_loop num_chunks (fun i result =>
    let start := Int32.mul i chunk_size in
    let end_ := Int32.min (Int32.add start chunk_size) nrows in
    let chunk_rows := Int32.sub end_ start in
    chunk <- (if (chunk_rows <? 0) || (ncols <? 0) then Raised NegativeLength
              else allocate zero (chunk_rows * ncols)) ;;
    chunk <- for_loop chunk_rows (fun r chunk =>
      for_loop ncols (fun c chunk =>
        v <- load (cells mat) (offset nrows (Int32.add start r) c) ;;
        store chunk (offset chunk_rows r c) v) chunk) chunk ;;
    store result i
      (MATSXP {| nrow := chunk_rows; ncol := ncols; cells := chunk |})) result.


(** ** Chunk Size Planner *)

(** The target of the compilation decides what [static_cast<int>] delivers
    when the truncated value does not fit an [int] (the language leaves it
    open): x86-64 yields [INT_MIN], AArch64 saturates. *)
Record target : Type := {
  fp_indefinite : double -> Z
}.

Definition x86_64 : target := {| fp_indefinite := fun _ => Int32.INT_MIN |}.

Definition aarch64 : target :=
  {| fp_indefinite := fun x =>
       match x with
       | S754_nan | S754_zero _ => 0
       | S754_infinity s | S754_finite s _ _ =>
           if s then Int32.INT_MIN else Int32.INT_MAX
       end |}.

Definition static_cast_int (t : target) (x : double) : Z :=
  match to_int x with
  | Some z => z
  | None => fp_indefinite t x
  end.

Section Planner.

Variable t : target.

(** [total_rows * target_chunk_ram / data_size_mb], as a [double]. *)
Definition raw_quotient (data_size_mb : double) (total_rows : Z)
           (max_ram_mb target_fraction : double) : double :=
  let target_chunk_ram := mul max_ram_mb target_fraction in
  div (mul (of_Z total_rows) target_chunk_ram) data_size_mb.

(** [if (chunk_size < 1) chunk_size = 1;] *)
Definition ensure_minimum (chunk_size : Z) : Z :=
  if chunk_size <? 1 then 1 else chunk_size.

(** [if (chunk_size > total_rows) chunk_size = total_rows;] *)
Definition cap_at_total_rows (total_rows chunk_size : Z) : Z :=
  if total_rows <? chunk_size then total_rows else chunk_size.

Definition calculate_optimal_chunk_size (data_size_mb : double) (total_rows : Z)
           (max_ram_mb target_fraction : double) : outcome Z :=
  let target_chunk_ram := mul max_ram_mb target_fraction in
  let chunk_size :=
    static_cast_int t
      (floor (div (mul (of_Z total_rows) target_chunk_ram) data_size_mb)) in
  let chunk_size := ensure_minimum chunk_size in
  let chunk_size := cap_at_total_rows total_rows chunk_size in
  Returned chunk_size.

End Planner.

(** The literal [0.1], the default of [target_fraction]. *)
Definition one_tenth : double := S754_finite false 7205759403792794 (-56).


(** ** Process Memory Reader and RAM Threshold Monitor *)

(** The three build variants the preprocessor selects between. *)
Inductive platform : Type :=
| Windows
| MacOS
| Linux.

(** What the operating system answers at the time of the call:
    - [private_usage]: the [PrivateUsage] counter of
      [GetProcessMemoryInfo], [None] when that call fails;
    - [proc_status]: the lines of [/proc/self/status], [None] when the file
      cannot be opened;
    - [ru_maxrss]: the field of that name filled by [getrusage]. *)
Record os_state : Type := {
  private_usage : option Z;
  proc_status : option (list String.string);
  ru_maxrss : Z
}.

Definition kib : double := of_Z 1024.
Definition mib : double := mul (of_Z 1024) (of_Z 1024).

Section Reader.

(** Formatted extraction of a [double] from the text after the field name
    ([iss >> rss_kb]), a service of the C++ standard library.  [Some v]
    when the extraction stores [v] in [rss_kb]; [None] when it stores
    nothing, as it does when the text is empty or blank and the stream
    fails before any conversion. *)
Variable extract_double : String.string -> option double.

(** What [double rss_kb;], declared without an initial value, delivers
    when the extraction has stored nothing.  The language does not say
    what that is; the model takes it to be some [double] and the
    properties assume nothing about it. *)
Variable uninitialised : double.

(** The [while (std::getline ...)] loop: the first line that starts with
    the field name decides, and [rss_mb] keeps its initial [0.0] when no
    line does. *)
Fixpoint scan_status (lines : list String.string) : double :=
  match lines with
  | [] => zero
  | line :: rest =>
      if String.eqb (String.substring 0 6 line) "VmRSS:"%string
      then
        let rss_kb :=
          match extract_double
                  (String.substring 6 (String.length line - 6)%nat line) with
          | Some stored => stored
          | None => uninitialised
          end in
        div rss_kb kib
      else scan_status rest
  end.

Definition get_ram_usage_cpp (p : platform) (os : os_state) : double :=
  match p with
  | Windows =>
      match private_usage os with
      | Some virtualMemUsed => div (of_Z virtualMemUsed) mib
      | None => zero
      end
  | MacOS =>
      match proc_status os with
      | None => div (of_Z (ru_maxrss os)) mib
      | Some lines => scan_status lines
      end
  | Linux =>
      match proc_status os with
      | None => div (of_Z (ru_maxrss os)) kib
      | Some lines => scan_status lines
      end
  end.

Definition ram_threshold_exceeded (p : platform) (os : os_state)
           (max_ram_mb : double) : bool :=
  let current_ram := get_ram_usage_cpp p os in
  gt current_ram max_ram_mb.

End Reader.

(** ** System Memory Reporter *)




(** ** Describing what a loop leaves in a vector *)

(** Slot [k] of [s] holds what the final content [T] has there. *)
Definition agrees_at {A : Type} (T s : list A) (k : nat) : Prop :=
  nth_error s k = nth_error T k.

(** [f] keeps the size of the vector and every slot that already holds
    its final value, and puts the final value in the slots of [W]. *)
Definition fills {A : Type} (T : list A) (W : nat -> Prop)
           (f : list A -> outcome (list A)) : Prop :=
  forall s, length s = length T ->
    exists s', f s = Returned s' /\ length s' = length T /\
               (forall k, agrees_at T s k -> agrees_at T s' k) /\
               (forall k, W k -> agrees_at T s' k).

(** ** Describing the chunks *)

(** The [len] elements of [x] from position [start] on. *)
Definition slice {A : Type} (x : list A) (start len : nat) : list A :=
  firstn len (skipn start x).

(** The chunks a call is expected to deliver, as consecutive slices of [x]:
    their number, the slice of index [i], and all of them in order. *)
Definition chunk_count {A : Type} (x : list A) (chunk_size : Z) : nat :=
  Z.to_nat ((Z.of_nat (length x) + chunk_size - 1) / chunk_size).

Definition chunk_slice {A : Type} (x : list A) (chunk_size : Z) (i : nat)
  : list A :=
  slice x (i * Z.to_nat chunk_size)
        (Nat.min (Z.to_nat chunk_size) (length x - i * Z.to_nat chunk_size)).

Definition chunk_slices {A : Type} (x : list A) (chunk_size : Z)
  : list (list A) :=
  map (chunk_slice x chunk_size) (seq 0 (chunk_count x chunk_size)).

(** Row [r] of a matrix, read through [mat(r, c)], and the rows in order. *)
Definition matrix_row (m : NumericMatrix) (r : nat) : list double :=
  map (fun c => nth (r + Z.to_nat (nrow m) * c) (cells m) zero)
      (seq 0 (Z.to_nat (ncol m))).

Definition matrix_rows (m : NumericMatrix) : list (list double) :=
  map (matrix_row m) (seq 0 (Z.to_nat (nrow m))).

(** A matrix whose storage has the size its dimensions announce. *)
Definition well_formed (m : NumericMatrix) : Prop :=
  0 <= nrow m /\ 0 <= ncol m /\
  Z.of_nat (length (cells m)) = nrow m * ncol m.

(** The storage of the block of [rows] rows from row [start] on: column
    after column, the slice of that column. *)
Definition block_cells (m : NumericMatrix) (start rows : nat) : list double :=
  flat_map (fun c => slice (cells m) (start + Z.to_nat (nrow m) * c) rows)
           (seq 0 (Z.to_nat (ncol m))).

Definition matrix_block (m : NumericMatrix) (start rows : nat)
  : NumericMatrix :=
  {| nrow := Z.of_nat rows;
     ncol := ncol m;
     cells := block_cells m start rows |}.

Definition matrix_chunk (m : NumericMatrix) (chunk_size : Z) (i : nat)
  : NumericMatrix :=
  matrix_block m (i * Z.to_nat chunk_size)
    (Nat.min (Z.to_nat chunk_size)
             (Z.to_nat (nrow m) - i * Z.to_nat chunk_size)).

(** ** Describing the status file *)

(** The test the reader applies to a line of [/proc/self/status]:
    [line.substr(0, 6) == "VmRSS:"]. *)
Definition is_rss_line (line : String.string) : bool :=
  String.eqb (String.substring 0 6 line) "VmRSS:"%string.

(** The text the reader hands to the extraction: what follows the field name
    on the first line that starts with it, if there is such a line. *)
Fixpoint first_rss_field (lines : list String.string)
  : option String.string :=
  match lines with
  | [] => None
  | line :: rest =>
      if is_rss_line line
      then Some (String.substring 6 (String.length line - 6)%nat line)
      else first_rss_field rest
  end.

(** ** Describing numbers that are held exactly *)

(** [x] is the binary64 number [p * 2^c], held with a full 53-bit
    mantissa: nothing was rounded away. *)
Definition represents (x : double) (p : positive) (c : Z) : Prop :=
  exists m,
    x = S754_finite false m (Zpos (digits2_pos p) - 53 + c) /\
    Zpos m = Zpos p * 2 ^ (53 - Zpos (digits2_pos p)) /\
    Zpos (digits2_pos m) = 53.

(** * Properties *)

(** ** Integer arithmetic *)

Lemma wrap_in_range (z : Z) : Int32.in_range z -> Int32.wrap z = z.
Proof.
  unfold Int32.in_range, Int32.wrap, Int32.INT_MIN, Int32.INT_MAX.
  intros H. rewrite Z.mod_small; lia.
Qed.

Lemma min_spec (a b : Z) : Int32.min a b = Z.min a b.
Proof.
  unfold Int32.min. destruct (Z.ltb_spec b a); lia.
Qed.

(** ** Chunk Size Planner *)

Section PlannerFacts.

Variable t : target.

Lemma ensure_minimum_ge (c : Z) : 1 <= ensure_minimum c.
Proof. unfold ensure_minimum. destruct (Z.ltb_spec c 1); lia. Qed.

Lemma cap_at_total_rows_spec (n c : Z) : cap_at_total_rows n c = Z.min n c.
Proof. unfold cap_at_total_rows. destruct (Z.ltb_spec n c); lia. Qed.

(** The planner is the composition of the conversion and the two clamps,
    and always returns. *)
Lemma calculate_optimal_chunk_size_eq d n m f :
  calculate_optimal_chunk_size t d n m f =
  Returned (Z.min n (ensure_minimum
                       (static_cast_int t (floor (raw_quotient d n m f))))).
Proof.
  unfold calculate_optimal_chunk_size, raw_quotient.
  now rewrite cap_at_total_rows_spec.
Qed.

End PlannerFacts.

(** A product with the integer zero is a zero unless the other side is an
    infinity or a NaN. *)
Lemma mul_zero_finite (x : double) :
  is_finite x = true -> exists s, mul (of_Z 0) x = S754_zero s.
Proof.
  destruct x as [s | s | | s m e]; simpl; intros H; try discriminate;
    eexists; reflexivity.
Qed.

Lemma div_zero_positive (s : bool) (d : double) :
  gt d zero = true -> exists s', div (S754_zero s) d = S754_zero s'.
Proof.
  destruct d as [sd | sd | | sd m e]; simpl; intros H; try discriminate;
    eexists; reflexivity.
Qed.

(** C1, counterexample: with [total_rows = 0] the planner returns 0, which
    is below 1, so the range [1, total_rows] is not met for every
    [total_rows >= 0]. *)
Lemma chunk_plan_range_fails_without_rows :
  ~ (forall t d n m f, 0 <= n ->
       exists r, calculate_optimal_chunk_size t d n m f = Returned r /\
                 1 <= r <= n).
Proof.
  intros H.
  destruct (H x86_64 (of_Z 1000) 0 (of_Z 500) one_tenth) as [r [E R]]; lia.
Qed.

(** C1, amended: for every input with [total_rows >= 1], whatever the three
    floating-point arguments are, the planner returns an integer in the
    closed range [1, total_rows]. *)
Theorem chunk_plan_within_rows t d n m f :
  1 <= n ->
  exists r, calculate_optimal_chunk_size t d n m f = Returned r /\
            1 <= r <= n.
Proof.
  intros Hn. rewrite calculate_optimal_chunk_size_eq.
  eexists; split; [reflexivity|].
  pose proof (ensure_minimum_ge
                (static_cast_int t (floor (raw_quotient d n m f)))).
  lia.
Qed.

(** The documented scenario meets the hypothesis. *)
Lemma chunk_plan_within_rows_witness :
  1 <= 100000 /\
  exists r, calculate_optimal_chunk_size x86_64 (of_Z 1000) 100000 (of_Z 500)
              one_tenth = Returned r /\ 1 <= r <= 100000.
Proof.
  split; [lia | apply (chunk_plan_within_rows x86_64); lia].
Defined.

(** C5, counterexample: a negative [data_size_mb] is not rejected; the call
    returns 1. *)
Lemma planner_accepts_negative_data_size :
  ~ (forall t d n m f, n = 0 \/ le d zero = true ->
       calculate_optimal_chunk_size t d n m f = Raised InvalidArgument).
Proof.
  intros H.
  specialize (H x86_64 (of_Z (-1000)) 100000 (of_Z 500) one_tenth).
  assert (E : calculate_optimal_chunk_size x86_64 (of_Z (-1000)) 100000
                (of_Z 500) one_tenth = Returned 1) by reflexivity.
  rewrite E in H. discriminate H. right; reflexivity.
Qed.

(** C5, amended: the planner validates nothing and never fails.  With
    [total_rows = 0] or [data_size_mb <= 0] it still returns an integer:
    [total_rows] itself when that is not positive (so 0 for an empty data
    set), and a value of [1, total_rows] otherwise. *)
Theorem planner_never_rejects t d n m f :
  n = 0 \/ le d zero = true ->
  exists r, calculate_optimal_chunk_size t d n m f = Returned r /\
            (n <= 0 -> r = n) /\ (1 <= n -> 1 <= r <= n).
Proof.
  intros _. rewrite calculate_optimal_chunk_size_eq.
  eexists; split; [reflexivity|].
  pose proof (ensure_minimum_ge
                (static_cast_int t (floor (raw_quotient d n m f)))).
  lia.
Qed.

(** An empty data set on a saturating target. *)
Lemma planner_never_rejects_witness :
  (0 = 0 \/ le (of_Z 1000) zero = true) /\
  exists r, calculate_optimal_chunk_size aarch64 (of_Z 1000) 0 (of_Z 500)
              one_tenth = Returned r /\
            (0 <= 0 -> r = 0) /\ (1 <= 0 -> 1 <= r <= 0).
Proof.
  split; [left; reflexivity |].
  apply (planner_never_rejects aarch64). left; reflexivity.
Defined.

(** C7, at the failing input: with 10,000,000 rows in 100 MB and a budget of
    64000 * 0.5 MB the quotient is 3.2e9, which no [int] holds.  The
    conversion takes place before the clamps, so its result is left open: an
    x86-64 build returns 1.  With the larger [data_size_mb = 200] the same
    call returns 10,000,000, on every target. *)
Theorem planner_not_monotone_past_int_range :
  let half := div (of_Z 1) (of_Z 2) in
  gt (of_Z 100) zero = true /\ le (of_Z 100) (of_Z 200) = true /\
  floor (raw_quotient (of_Z 100) 10000000 (of_Z 64000) half)
    = of_Z 3200000000 /\
  to_int (of_Z 3200000000) = None /\
  calculate_optimal_chunk_size x86_64 (of_Z 100) 10000000 (of_Z 64000) half
    = Returned 1 /\
  (forall t,
     calculate_optimal_chunk_size t (of_Z 200) 10000000 (of_Z 64000) half
     = Returned 10000000).
Proof. vm_compute. repeat split. Qed.

(** On a target whose conversion saturates the same call is capped to
    [total_rows]: the outcome at this input depends on the target. *)
Example planner_past_int_range_saturating :
  calculate_optimal_chunk_size aarch64 (of_Z 100) 10000000 (of_Z 64000)
    (div (of_Z 1) (of_Z 2)) = Returned 10000000.
Proof. reflexivity. Qed.

(** C9: the documented scenario.  [500 * 0.1] is exactly 50 in binary64,
    [100000 * 50 / 1000] is exactly 5000, and the planner returns 5000 on
    every target. *)
Theorem planner_scenario_5000 :
  forall t,
    mul (of_Z 500) one_tenth = of_Z 50 /\
    floor (div (mul (of_Z 100000) (of_Z 50)) (of_Z 1000)) = of_Z 5000 /\
    calculate_optimal_chunk_size t (of_Z 1000) 100000 (of_Z 500) one_tenth
      = Returned 5000.
Proof. intros t. repeat split. Qed.

(** The two clamping scenarios of the specification: a raw value below 1 is
    raised to 1, a raw value above [total_rows = 10] is capped to 10. *)
Example planner_scenario_clamps :
  forall t,
    calculate_optimal_chunk_size t (of_Z 1) 10 (of_Z 1) one_tenth
      = Returned 1 /\
    calculate_optimal_chunk_size t (div (of_Z 1) (of_Z 10000)) 10
      (of_Z 10000) (of_Z 1) = Returned 10.
Proof. intros t. split; reflexivity. Qed.

(** Without rows, a budget that is not finite makes the raw quotient a
    NaN. *)
Lemma raw_quotient_nan (d x f : double) :
  is_finite (mul x f) = false -> raw_quotient d 0 x f = S754_nan.
Proof.
  unfold raw_quotient. cbv zeta.
  destruct (mul x f) as [s | s | | s m e]; simpl; intros H;
    try discriminate; reflexivity.
Qed.

(** C10, counterexample: the raw value is not 0 for every [max_ram_mb].
    With an infinite [max_ram_mb] and a positive [data_size_mb] the raw
    quotient [0 * inf / data_size_mb] is a NaN, which x86-64 converts to
    [INT_MIN]. *)
Lemma planner_raw_value_not_always_zero :
  ~ (forall t d m f, gt d zero = true ->
       calculate_optimal_chunk_size t d 0 m f = Returned 0 /\
       static_cast_int t (floor (raw_quotient d 0 m f)) = 0) /\
  ~ (forall d m f, gt d zero = true ->
       exists s, floor (raw_quotient d 0 m f) = S754_zero s).
Proof.
  split; intros H.
  - destruct (H x86_64 (of_Z 1000) (S754_infinity false) one_tenth
                eq_refl) as [_ E].
    vm_compute in E. discriminate E.
  - destruct (H (of_Z 1000) (S754_infinity false) one_tenth eq_refl)
      as [s E].
    vm_compute in E. discriminate E.
Qed.

(** C10, amended: with [total_rows = 0] the planner returns 0 and signals
    nothing, for every [data_size_mb], [max_ram_mb], [target_fraction] and
    target.  The planner is, at every [total_rows], the upper clamp applied
    to the lower clamp applied to the converted raw value; at
    [total_rows = 0] the lower clamp delivers at least 1 whatever the raw
    value is and the upper clamp, applied afterwards, brings it down to 0,
    where the clamps in the opposite order would give 1.  The raw value is
    0, and is raised to exactly 1, when [data_size_mb > 0] and
    [max_ram_mb * target_fraction] is finite; when that product is not
    finite the raw quotient is a NaN and the raw value is whatever the
    target makes of a NaN. *)
Theorem planner_returns_zero_without_rows t d m f :
  let raw := static_cast_int t (floor (raw_quotient d 0 m f)) in
  calculate_optimal_chunk_size t d 0 m f = Returned 0 /\
  (forall n,
     calculate_optimal_chunk_size t d n m f
     = Returned (cap_at_total_rows n
                   (ensure_minimum
                      (static_cast_int t (floor (raw_quotient d n m f)))))) /\
  (1 <= ensure_minimum raw /\
   cap_at_total_rows 0 (ensure_minimum raw) = 0 /\
   ensure_minimum (cap_at_total_rows 0 raw) = 1) /\
  (gt d zero = true -> is_finite (mul m f) = true ->
   raw = 0 /\ ensure_minimum raw = 1) /\
  (is_finite (mul m f) = false ->
   raw_quotient d 0 m f = S754_nan /\ raw = fp_indefinite t S754_nan).
Proof.
  cbv zeta.
  pose proof (ensure_minimum_ge
                (static_cast_int t (floor (raw_quotient d 0 m f)))) as Hge.
  assert (Hraw : gt d zero = true -> is_finite (mul m f) = true ->
                 static_cast_int t (floor (raw_quotient d 0 m f)) = 0).
  { intros Hd Hf. unfold raw_quotient.
    destruct (mul_zero_finite _ Hf) as [s Es]. rewrite Es.
    destruct (div_zero_positive s d Hd) as [s' Es']. rewrite Es'.
    reflexivity. }
  split; [| split; [| split; [| split]]].
  - rewrite calculate_optimal_chunk_size_eq. f_equal. lia.
  - intros n. reflexivity.
  - split; [exact Hge |]. rewrite !cap_at_total_rows_spec. split; [lia |].
    unfold ensure_minimum.
    destruct (Z.ltb_spec
                (Z.min 0 (static_cast_int t (floor (raw_quotient d 0 m f))))
                1); [reflexivity | lia].
  - intros Hd Hf. rewrite (Hraw Hd Hf). split; reflexivity.
  - intros Hf. rewrite (raw_quotient_nan d m f Hf). split; reflexivity.
Qed.

(** A positive data size with a finite budget, where the raw value is 0,
    and with an infinite one, where an x86-64 build has [INT_MIN] for it;
    the planner returns 0 both times. *)
Lemma planner_returns_zero_without_rows_witness :
  (calculate_optimal_chunk_size x86_64 (of_Z 1000) 0 (of_Z 500) one_tenth
   = Returned 0 /\
   static_cast_int x86_64
     (floor (raw_quotient (of_Z 1000) 0 (of_Z 500) one_tenth)) = 0 /\
   ensure_minimum 0 = 1 /\
   cap_at_total_rows 0 1 = 0) /\
  (calculate_optimal_chunk_size x86_64 (of_Z 1000) 0 (S754_infinity false)
     one_tenth = Returned 0 /\
   raw_quotient (of_Z 1000) 0 (S754_infinity false) one_tenth = S754_nan /\
   static_cast_int x86_64
     (floor (raw_quotient (of_Z 1000) 0 (S754_infinity false) one_tenth))
   = Int32.INT_MIN).
Proof.
  split.
  - destruct (planner_returns_zero_without_rows x86_64 (of_Z 1000)
                (of_Z 500) one_tenth) as [H1 [_ [_ [H2 _]]]].
    destruct (H2 eq_refl eq_refl) as [H3 _].
    split; [exact H1 |]. split; [exact H3 |]. split; reflexivity.
  - destruct (planner_returns_zero_without_rows x86_64 (of_Z 1000)
                (S754_infinity false) one_tenth) as [H1 [_ [_ [_ H2]]]].
    destruct (H2 eq_refl) as [H3 H4].
    split; [exact H1 |]. split; [exact H3 | exact H4].
Defined.

(** ** Loops that fill a vector *)

Lemma bind_assoc {A B C : Type} (o : outcome A) (f : A -> outcome B)
      (g : B -> outcome C) :
  (y <- (x <- o ;; f x) ;; g y) = (x <- o ;; y <- f x ;; g y).
Proof. destruct o; reflexivity. Qed.

Lemma for_each_ext {S : Type} (body body' : Z -> S -> outcome S)
      (idx : list Z) :
  (forall i s, In i idx -> body i s = body' i s) ->
  forall s, for_each body idx s = for_each body' idx s.
Proof.
  induction idx as [| i idx IH]; intros H s; simpl; [reflexivity|].
  rewrite (H i s) by (left; reflexivity).
  destruct (body' i s); simpl; try reflexivity.
  apply IH. intros j s' Hj. apply H. right; exact Hj.
Qed.

Lemma in_upto (n i : Z) :
  In i (upto n) <-> 0 <= i < n.
Proof.
  unfold upto. rewrite in_map_iff. split.
  - intros [k [E Hk]]. apply in_seq in Hk. lia.
  - intros H. exists (Z.to_nat i). split; [lia|]. apply in_seq. lia.
Qed.

Lemma length_list_set {A : Type} (l : list A) (i : nat) (v : A) :
  length (list_set l i v) = length l.
Proof.
  revert i; induction l as [| a l IH]; intros [| i]; simpl; auto.
Qed.

Lemma nth_error_list_set_eq {A : Type} (l : list A) (i : nat) (v : A) :
  (i < length l)%nat -> nth_error (list_set l i v) i = Some v.
Proof.
  revert i; induction l as [| a l IH]; intros [| i]; simpl; intros H;
    try lia; auto.
  apply IH. lia.
Qed.

Lemma nth_error_list_set_neq {A : Type} (l : list A) (i k : nat) (v : A) :
  i <> k -> nth_error (list_set l i v) k = nth_error l k.
Proof.
  revert i k; induction l as [| a l IH]; intros [| i] [| k]; simpl; intros H;
    try congruence; auto.
Qed.

Section Fill.

Context {A : Type}.

(** The content the loop is meant to leave in the vector. *)
Variable T : list A.

Lemma fills_store (p : nat) (v : A) :
  nth_error T p = Some v ->
  fills T (eq p) (fun s => store s (Z.of_nat p) v).
Proof.
  intros Hv s Hs.
  assert (Hp : (p < length T)%nat)
    by (apply nth_error_Some; congruence).
  exists (list_set s p v). unfold store.
  replace ((0 <=? Z.of_nat p) && (Z.of_nat p <? Z.of_nat (length s)))
    with true
    by (symmetry; apply andb_true_iff; split;
        [apply Z.leb_le | apply Z.ltb_lt]; lia).
  rewrite Nat2Z.id. repeat split.
  - rewrite length_list_set. exact Hs.
  - intros k Hk. unfold agrees_at in *.
    destruct (Nat.eq_dec p k) as [-> | Hne].
    + rewrite nth_error_list_set_eq by lia. congruence.
    + rewrite nth_error_list_set_neq by exact Hne. exact Hk.
  - intros k <-. unfold agrees_at.
    rewrite nth_error_list_set_eq by lia. congruence.
Qed.

Lemma fills_ext (W : nat -> Prop) (f g : list A -> outcome (list A)) :
  (forall s, f s = g s) -> fills T W f -> fills T W g.
Proof.
  intros E H s Hs. destruct (H s Hs) as [s' [E' R]].
  exists s'. rewrite <- E. auto.
Qed.

Lemma fills_for_each (W : Z -> nat -> Prop)
      (body : Z -> list A -> outcome (list A)) (idx : list Z) :
  (forall i, In i idx -> fills T (W i) (body i)) ->
  fills T (fun k => exists i, In i idx /\ W i k) (for_each body idx).
Proof.
  induction idx as [| i idx IH]; intros H s Hs; simpl.
  - exists s. repeat split; auto. intros k [i [[] _]].
  - destruct (H i (or_introl eq_refl) s Hs) as [s1 [E1 [L1 [K1 W1]]]].
    rewrite E1; simpl.
    destruct (IH (fun j Hj => H j (or_intror Hj)) s1 L1)
      as [s2 [E2 [L2 [K2 W2]]]].
    exists s2. repeat split; auto.
    intros k [j [[<- | Hj] Hw]].
    + apply K2, W1, Hw.
    + apply W2. exists j; auto.
Qed.

(** A computation that fills every slot leaves exactly [T]. *)
Lemma fills_all (W : nat -> Prop) (f : list A -> outcome (list A))
      (s : list A) :
  fills T W f ->
  (forall k, (k < length T)%nat -> W k) ->
  length s = length T ->
  f s = Returned T.
Proof.
  intros Hf Hall Hs. destruct (Hf s Hs) as [s' [E [L [_ Hw]]]].
  rewrite E. f_equal. apply nth_error_ext. intros k.
  destruct (Nat.lt_ge_cases k (length T)) as [Hk | Hk].
  - apply Hw, Hall, Hk.
  - transitivity (@None A); [| symmetry]; apply nth_error_None; lia.
Qed.

End Fill.

Lemma fills_weaken {A : Type} (T : list A) (W W' : nat -> Prop)
      (f : list A -> outcome (list A)) :
  (forall k, W' k -> W k) -> fills T W f -> fills T W' f.
Proof.
  intros HW H s Hs. destruct (H s Hs) as [s' [E [L [K Hw]]]].
  exists s'. repeat split; auto.
Qed.

Lemma wrap_add_l (a b : Z) : Int32.wrap (Int32.wrap a + b) = Int32.wrap (a + b).
Proof.
  unfold Int32.wrap.
  replace ((a + 2 ^ 31) mod 2 ^ 32 - 2 ^ 31 + b + 2 ^ 31)
    with ((a + 2 ^ 31) mod 2 ^ 32 + b) by lia.
  rewrite Zplus_mod_idemp_l. do 2 f_equal. lia.
Qed.

(** ** Array Chunker: vectors *)

Lemma length_slice {A : Type} (x : list A) (start len : nat) :
  (start + len <= length x)%nat -> length (slice x start len) = len.
Proof.
  intros H. unfold slice. rewrite length_firstn, length_skipn. lia.
Qed.

Lemma nth_error_slice {A : Type} (x : list A) (start len j : nat) :
  (j < len)%nat -> nth_error (slice x start len) j = nth_error x (start + j).
Proof.
  intros H. unfold slice. rewrite nth_error_firstn, nth_error_skipn.
  destruct (Nat.ltb_spec j len); [reflexivity | lia].
Qed.

Lemma firstn_add {A : Type} (a b : nat) (l : list A) :
  firstn (a + b) l = firstn a l ++ firstn b (skipn a l).
Proof.
  revert l; induction a as [| a IH]; intros [| h l]; simpl;
    try reflexivity.
  - now rewrite firstn_nil.
  - now rewrite IH.
Qed.

Lemma firstn_min_length {A : Type} (c : nat) (l : list A) :
  firstn (Nat.min c (length l)) l = firstn c l.
Proof. now rewrite <- firstn_firstn, firstn_all. Qed.

(** The inner loop copies a slice of the source. *)
Lemma copy_slice (x : NumericVector) (start len : nat) :
  (start + len <= length x)%nat ->
  Z.of_nat (length x) <= Int32.INT_MAX ->
  for_loop (Z.of_nat len)
    (fun j chunk =>
       v <- load x (Int32.add (Z.of_nat start) j) ;; store chunk j v)
    (repeat zero len)
  = Returned (slice x start len).
Proof.
  intros Hlen Hmax. unfold for_loop.
  apply (fills_all (slice x start len)
           (fun k => exists j, In j (upto (Z.of_nat len)) /\ Z.of_nat k = j)).
  - apply fills_for_each. intros j Hj. apply in_upto in Hj.
    destruct (nth_error x (start + Z.to_nat j)) as [v |] eqn:Ev.
    2: { apply nth_error_None in Ev. lia. }
    apply (fills_weaken _ (eq (Z.to_nat j))); [intros k Hk; lia |].
    apply (fills_ext _ _ (fun s => store s (Z.of_nat (Z.to_nat j)) v)).
    + intros s. unfold load, Int32.add.
      rewrite wrap_in_range
        by (unfold Int32.in_range, Int32.INT_MIN, Int32.INT_MAX in *; lia).
      destruct (Z.ltb_spec (Z.of_nat start + j) 0); [lia |].
      replace (Z.to_nat (Z.of_nat start + j)) with (start + Z.to_nat j)%nat
        by lia.
      rewrite Ev. simpl. now rewrite Z2Nat.id by lia.
    + apply fills_store. rewrite nth_error_slice by lia. exact Ev.
  - rewrite length_slice by exact Hlen. intros k Hk.
    exists (Z.of_nat k). split; [apply in_upto; lia | reflexivity].
  - rewrite repeat_length. symmetry. apply length_slice. exact Hlen.
Qed.

(** *** Cutting a list into consecutive slices *)

Section Slices.

Context {A : Type}.
Variable x : list A.
Variable chunk_size : Z.

Hypothesis chunk_size_positive : 1 <= chunk_size.

Lemma chunk_count_bounds :
  let k := Z.of_nat (chunk_count x chunk_size) in
  k = (Z.of_nat (length x) + chunk_size - 1) / chunk_size /\
  chunk_size * k <= Z.of_nat (length x) + chunk_size - 1 /\
  Z.of_nat (length x) <= chunk_size * k.
Proof.
  unfold chunk_count.
  set (a := Z.of_nat (length x) + chunk_size - 1).
  assert (0 <= a / chunk_size) by (apply Z.div_pos; lia).
  rewrite Z2Nat.id by assumption.
  pose proof (Z.mul_div_le a chunk_size ltac:(lia)).
  pose proof (Z.mul_succ_div_gt a chunk_size ltac:(lia)).
  cbv zeta. lia.
Qed.

Lemma chunk_slice_firstn (i : nat) :
  chunk_slice x chunk_size i
  = firstn (Z.to_nat chunk_size) (skipn (i * Z.to_nat chunk_size) x).
Proof.
  unfold chunk_slice, slice.
  rewrite <- length_skipn. apply firstn_min_length.
Qed.

Lemma concat_chunk_slices_upto (k : nat) :
  concat (map (chunk_slice x chunk_size) (seq 0 k))
  = firstn (k * Z.to_nat chunk_size) x.
Proof.
  induction k as [| k IH]; [reflexivity |].
  rewrite seq_S, map_app, concat_app, IH. simpl.
  rewrite app_nil_r, chunk_slice_firstn.
  replace (Z.to_nat chunk_size + k * Z.to_nat chunk_size)%nat
    with (k * Z.to_nat chunk_size + Z.to_nat chunk_size)%nat by lia.
  now rewrite firstn_add.
Qed.

(** Round trip: the slices, concatenated in order, are [x]. *)
Lemma concat_chunk_slices : concat (chunk_slices x chunk_size) = x.
Proof.
  unfold chunk_slices. rewrite concat_chunk_slices_upto.
  apply firstn_all2.
  destruct chunk_count_bounds as [_ [_ H]]. nia.
Qed.

Lemma length_chunk_slices :
  length (chunk_slices x chunk_size) = chunk_count x chunk_size.
Proof. unfold chunk_slices. now rewrite length_map, length_seq. Qed.

Lemma nth_error_chunk_slices (i : nat) :
  (i < chunk_count x chunk_size)%nat ->
  nth_error (chunk_slices x chunk_size) i = Some (chunk_slice x chunk_size i).
Proof.
  intros Hi. unfold chunk_slices. apply map_nth_error.
  rewrite nth_error_seq.
  destruct (Nat.ltb_spec i (chunk_count x chunk_size)); [reflexivity | lia].
Qed.

Lemma length_chunk_slice (i : nat) :
  (i < chunk_count x chunk_size)%nat ->
  length (chunk_slice x chunk_size i)
  = Nat.min (Z.to_nat chunk_size) (length x - i * Z.to_nat chunk_size).
Proof.
  intros Hi. unfold chunk_slice. apply length_slice.
  destruct chunk_count_bounds as [_ [H _]]. nia.
Qed.

(** Every slice but the last is full, and the last is not empty. *)
Lemma chunk_slice_sizes (i : nat) :
  (i < chunk_count x chunk_size)%nat ->
  ((S i < chunk_count x chunk_size)%nat ->
   Z.of_nat (length (chunk_slice x chunk_size i)) = chunk_size) /\
  1 <= Z.of_nat (length (chunk_slice x chunk_size i)) <= chunk_size.
Proof.
  intros Hi. rewrite length_chunk_slice by exact Hi.
  destruct chunk_count_bounds as [_ [H1 H2]]. split; [intros Hs |]; nia.
Qed.

(** The arithmetic of one iteration, free of wrap-around when
    [length x + chunk_size - 1] fits an [int]. *)
Lemma chunk_bounds_step (i : Z) :
  Z.of_nat (length x) + chunk_size - 1 <= Int32.INT_MAX ->
  0 <= i < Z.of_nat (chunk_count x chunk_size) ->
  let start := (Z.to_nat i * Z.to_nat chunk_size)%nat in
  let len := Nat.min (Z.to_nat chunk_size) (length x - start) in
  Int32.mul i chunk_size = Z.of_nat start /\
  Int32.sub (Int32.min (Int32.add (Z.of_nat start) chunk_size)
                       (Z.of_nat (length x)))
            (Z.of_nat start) = Z.of_nat len /\
  (start + len <= length x)%nat.
Proof.
  intros sum_fits Hi. destruct chunk_count_bounds as [_ [Hlo Hhi]].
  assert (Hstart : i * chunk_size <= Z.of_nat (length x) - 1) by nia.
  assert (R : forall z, 0 <= z <= Int32.INT_MAX -> Int32.wrap z = z)
    by (intros z Hz; apply wrap_in_range;
        unfold Int32.in_range, Int32.INT_MIN, Int32.INT_MAX in *; lia).
  intros start len. repeat split.
  - unfold Int32.mul; rewrite R; unfold start; nia.
  - unfold Int32.sub, Int32.add.
    rewrite (R (Z.of_nat start + chunk_size)) by (unfold start; nia).
    rewrite min_spec. rewrite R; unfold len, start; nia.
  - unfold len, start; nia.
Qed.

Lemma num_chunks_eq :
  Z.of_nat (length x) + chunk_size - 1 <= Int32.INT_MAX ->
  Int32.div
    (Int32.sub (Int32.add (Int32.wrap (Z.of_nat (length x))) chunk_size) 1)
    chunk_size
  = Some (Z.of_nat (chunk_count x chunk_size)).
Proof.
  intros sum_fits. destruct chunk_count_bounds as [Ek _].
  unfold Int32.sub, Int32.add.
  rewrite wrap_add_l.
  replace (Int32.wrap (Z.of_nat (length x) + chunk_size) - 1)
    with (Int32.wrap (Z.of_nat (length x) + chunk_size) + (-1)) by lia.
  rewrite wrap_add_l.
  rewrite wrap_in_range
    by (unfold Int32.in_range, Int32.INT_MIN, Int32.INT_MAX in *; lia).
  unfold Int32.div.
  destruct (Z.eqb_spec chunk_size 0); [lia |].
  destruct (Z.eqb_spec chunk_size (-1)); [lia |].
  rewrite andb_false_r.
  rewrite Z.quot_div_nonneg by lia.
  rewrite Ek. reflexivity.
Qed.

End Slices.

Section VectorPartition.

Variable x : NumericVector.
Variable chunk_size : Z.

Hypothesis chunk_size_positive : 1 <= chunk_size.
Hypothesis sum_fits : Z.of_nat (length x) + chunk_size - 1 <= Int32.INT_MAX.

Lemma vector_chunk_step (i : Z) (result : List) :
  0 <= i < Z.of_nat (chunk_count x chunk_size) ->
  (let start := Int32.mul i chunk_size in
   let end_ := Int32.min (Int32.add start chunk_size)
                         (Int32.wrap (Z.of_nat (length x))) in
   let chunk_len := Int32.sub end_ start in
   chunk <- allocate zero chunk_len ;;
   chunk <- for_loop chunk_len (fun j chunk =>
     v <- load x (Int32.add start j) ;;
     store chunk j v) chunk ;;
   store result i (REALSXP chunk))
  = store result (Z.of_nat (Z.to_nat i))
          (REALSXP (chunk_slice x chunk_size (Z.to_nat i))).
Proof.
  intros Hi.
  destruct (chunk_bounds_step x chunk_size chunk_size_positive i sum_fits Hi)
    as [Es [El Hin]].
  cbv zeta. rewrite Es.
  rewrite (wrap_in_range (Z.of_nat (length x)))
    by (unfold Int32.in_range, Int32.INT_MIN, Int32.INT_MAX in *; lia).
  rewrite El. unfold allocate.
  match goal with |- context [Z.of_nat ?l <? 0] =>
    destruct (Z.ltb_spec (Z.of_nat l) 0); [lia |] end.
  rewrite Nat2Z.id. simpl.
  rewrite copy_slice by (unfold Int32.INT_MAX in *; lia).
  simpl. rewrite Z2Nat.id by lia. reflexivity.
Qed.

(** Without wrap-around the call returns the slices of [x], in order. *)
Lemma split_vector_chunks_eq :
  split_vector_chunks x chunk_size
  = Returned (map REALSXP (chunk_slices x chunk_size)).
Proof.
  unfold split_vector_chunks. cbv zeta.
  rewrite num_chunks_eq by assumption. simpl.
  unfold allocate.
  destruct (Z.ltb_spec (Z.of_nat (chunk_count x chunk_size)) 0); [lia |].
  rewrite Nat2Z.id. simpl. unfold for_loop.
  apply (fills_all (map REALSXP (chunk_slices x chunk_size))
           (fun k => exists i,
                In i (upto (Z.of_nat (chunk_count x chunk_size)))
                /\ Z.of_nat k = i)).
  - apply fills_for_each. intros i Hi. apply in_upto in Hi.
    apply (fills_weaken _ (eq (Z.to_nat i))); [intros k Hk; lia |].
    apply (fills_ext _ _
             (fun s => store s (Z.of_nat (Z.to_nat i))
                         (REALSXP (chunk_slice x chunk_size (Z.to_nat i))))).
    + intros s. symmetry. apply (vector_chunk_step i s Hi).
    + apply fills_store, map_nth_error, nth_error_chunk_slices. lia.
  - rewrite (length_map REALSXP). unfold NumericVector.
    rewrite length_chunk_slices. intros k Hk.
    exists (Z.of_nat k). split; [apply in_upto; lia | reflexivity].
  - rewrite repeat_length, (length_map REALSXP). unfold NumericVector.
    now rewrite length_chunk_slices.
Qed.

End VectorPartition.

(** X1: without wrap-around, [split_vector_chunks] partitions its argument: the
    chunks concatenate to [x], there are [ceil(n / chunk_size)] of them, none
    is empty or longer than [chunk_size], and all but the last are full. *)
Theorem split_vector_chunks_partition (x : NumericVector) (chunk_size : Z) :
  1 <= chunk_size ->
  Z.of_nat (length x) + chunk_size - 1 <= Int32.INT_MAX ->
  exists chunks : list NumericVector,
    split_vector_chunks x chunk_size = Returned (map REALSXP chunks) /\
    concat chunks = x /\
    Z.of_nat (length chunks)
      = (Z.of_nat (length x) + chunk_size - 1) / chunk_size /\
    (forall i chunk, nth_error chunks i = Some chunk ->
       1 <= Z.of_nat (length chunk) <= chunk_size /\
       ((S i < length chunks)%nat -> Z.of_nat (length chunk) = chunk_size)).
Proof.
  intros Hc Hfit. exists (chunk_slices x chunk_size).
  unfold NumericVector in *.
  split; [apply split_vector_chunks_eq; assumption |].
  split; [apply concat_chunk_slices; assumption |].
  rewrite length_chunk_slices.
  split; [apply (chunk_count_bounds x chunk_size Hc) |].
  intros i chunk H.
  assert (Hi : (i < chunk_count x chunk_size)%nat).
  { rewrite <- length_chunk_slices. apply nth_error_Some. congruence. }
  rewrite nth_error_chunk_slices in H by exact Hi.
  injection H as <-.
  destruct (chunk_slice_sizes x chunk_size Hc i Hi) as [Hfull Hsize].
  split; [exact Hsize | exact Hfull].
Qed.

(** Five elements in chunks of two. *)
Lemma split_vector_chunks_partition_witness :
  exists chunks : list NumericVector,
    split_vector_chunks [of_Z 1; of_Z 2; of_Z 3; of_Z 4; of_Z 5] 2
      = Returned (map REALSXP chunks) /\
    concat chunks = [of_Z 1; of_Z 2; of_Z 3; of_Z 4; of_Z 5] /\
    Z.of_nat (length chunks) = (5 + 2 - 1) / 2 /\
    (forall i chunk, nth_error chunks i = Some chunk ->
       1 <= Z.of_nat (length chunk) <= 2 /\
       ((S i < length chunks)%nat -> Z.of_nat (length chunk) = 2)).
Proof.
  apply (split_vector_chunks_partition
           [of_Z 1; of_Z 2; of_Z 3; of_Z 4; of_Z 5] 2);
    unfold Int32.INT_MAX; simpl; lia.
Defined.

(** The documented scenario [split_vector_chunks([1,2,3,4,5], 2)]. *)
Example split_vector_chunks_scenario :
  split_vector_chunks [of_Z 1; of_Z 2; of_Z 3; of_Z 4; of_Z 5] 2
  = Returned [REALSXP [of_Z 1; of_Z 2]; REALSXP [of_Z 3; of_Z 4];
              REALSXP [of_Z 5]].
Proof. reflexivity. Qed.

(** C2, at the failing input: for a vector of four elements and
    [chunk_size = INT_MAX] the sum [n + chunk_size - 1] wraps around to
    [-2147483646], the chunk count is 0 and the call returns an empty list;
    nothing that it returns concatenates to the vector. *)
Theorem split_vector_chunks_drops_elements_on_wrap :
  let x := [of_Z 1; of_Z 2; of_Z 3; of_Z 4] in
  1 <= Int32.INT_MAX /\
  Int32.sub (Int32.add (Int32.wrap (Z.of_nat (length x))) Int32.INT_MAX) 1
    = -2147483646 /\
  split_vector_chunks x Int32.INT_MAX = Returned [] /\
  (forall chunks, split_vector_chunks x Int32.INT_MAX
                  = Returned (map REALSXP chunks) -> concat chunks <> x).
Proof.
  cbv zeta. repeat split; try (vm_compute; congruence).
  intros chunks H.
  assert (E : split_vector_chunks [of_Z 1; of_Z 2; of_Z 3; of_Z 4] Int32.INT_MAX
              = Returned []) by reflexivity.
  rewrite E in H. injection H as H.
  destruct chunks; [discriminate | discriminate H].
Qed.

(** C3, at the failing input: five elements and [chunk_size = INT_MAX]
    should give [ceil(5 / INT_MAX) = 1] chunk; the call returns none. *)
Theorem split_vector_chunks_count_wrong_on_wrap :
  let x := [of_Z 1; of_Z 2; of_Z 3; of_Z 4; of_Z 5] in
  (Z.of_nat (length x) + Int32.INT_MAX - 1) / Int32.INT_MAX = 1 /\
  exists result, split_vector_chunks x Int32.INT_MAX = Returned result /\
                 Z.of_nat (length result) = 0.
Proof.
  cbv zeta. split; [reflexivity |]. exists []. split; reflexivity.
Qed.

(** ** Array Chunker: a [chunk_size] that is not positive *)

Lemma upto_pos (q : Z) : 0 < q -> exists rest, upto q = 0 :: rest.
Proof.
  intros Hq. unfold upto.
  destruct (Z.to_nat q) as [| m] eqn:E; [lia |].
  simpl. eexists; reflexivity.
Qed.

Lemma wrap_bounds (z : Z) : Int32.in_range (Int32.wrap z).
Proof.
  unfold Int32.in_range, Int32.INT_MIN, Int32.INT_MAX, Int32.wrap.
  pose proof (Z.mod_pos_bound (z + 2 ^ 31) (2 ^ 32) ltac:(lia)). lia.
Qed.

(** The chunk count of a negative [chunk_size] is defined for every [n] but
    one: [n = INT_MIN + 2] with [chunk_size = -1] asks for [INT_MIN / -1]. *)
Lemma div_negative_defined (n chunk_size : Z) :
  Int32.in_range n -> Int32.INT_MIN <= chunk_size < 0 ->
  (chunk_size =? -1) && (n =? Int32.INT_MIN + 2) = false ->
  exists q,
    Int32.div (Int32.sub (Int32.add n chunk_size) 1) chunk_size = Some q.
Proof.
  intros Hn Hc Hex. unfold Int32.div.
  destruct (Z.eqb_spec chunk_size 0); [lia |].
  destruct (Z.eqb_spec chunk_size (-1)) as [-> | Hne].
  - simpl in Hex. apply Z.eqb_neq in Hex.
    unfold Int32.sub, Int32.add.
    replace (Int32.wrap (n + -1) - 1) with (Int32.wrap (n + -1) + -1) by lia.
    rewrite wrap_add_l.
    destruct (Z.eqb_spec (Int32.wrap (n + -1 + -1)) Int32.INT_MIN)
      as [E | _]; [| eexists; reflexivity].
    exfalso. apply Hex.
    unfold Int32.in_range, Int32.INT_MIN, Int32.INT_MAX in *.
    destruct (Z_le_gt_dec (Int32.INT_MIN + 2) n) as [Hge | Hlt].
    + rewrite wrap_in_range in E
        by (unfold Int32.in_range, Int32.INT_MIN, Int32.INT_MAX in *; lia).
      unfold Int32.INT_MIN in *. lia.
    + unfold Int32.INT_MIN in Hlt.
      assert (Hn' : n = - 2 ^ 31 \/ n = - 2 ^ 31 + 1) by lia.
      destruct Hn' as [-> | ->]; vm_compute in E; discriminate E.
  - rewrite andb_false_r. eexists; reflexivity.
Qed.

Lemma div_negative_undefined (n chunk_size : Z) :
  (chunk_size =? -1) && (n =? Int32.INT_MIN + 2) = true ->
  Int32.div (Int32.sub (Int32.add n chunk_size) 1) chunk_size = None.
Proof.
  intros H. apply andb_prop in H. destruct H as [Hc Hn].
  apply Z.eqb_eq in Hc. apply Z.eqb_eq in Hn. subst. reflexivity.
Qed.

(** The common skeleton of both chunkers: the chunk count, the result list,
    the loop.  When the first iteration asks for a negative extent, the call
    can only return an empty list or stop on R's refusal. *)
Lemma nonpositive_chunk_size_skeleton
      (n chunk_size : Z) (body : Z -> List -> outcome List) :
  Int32.in_range n -> Int32.INT_MIN <= chunk_size < 0 ->
  (chunk_size =? -1) && (n =? Int32.INT_MIN + 2) = false ->
  (forall s, body 0 s = Raised NegativeLength) ->
  let call :=
    num_chunks <- of_option
      (Int32.div (Int32.sub (Int32.add n chunk_size) 1) chunk_size) ;;
    result <- allocate R_NilValue num_chunks ;;
    for_loop num_chunks body result in
  call = Returned [] \/ call = Raised NegativeLength.
Proof.
  intros Hn Hc Hex Hbody. cbv zeta.
  destruct (div_negative_defined n chunk_size Hn Hc Hex) as [q ->].
  cbn [of_option bind].
  unfold allocate.
  destruct (Z.ltb_spec q 0) as [Hq | Hq]; cbn [bind]; [right; reflexivity |].
  destruct (Z.eq_dec q 0) as [-> | Hne]; [left; reflexivity |].
  right. unfold for_loop.
  destruct (upto_pos q ltac:(lia)) as [rest ->].
  cbn [for_each bind]. now rewrite Hbody.
Qed.

(** The extent the first iteration asks for. *)
Lemma first_chunk_extent (n chunk_size : Z) :
  Int32.in_range n -> Int32.in_range chunk_size ->
  Int32.sub (Int32.min (Int32.add (Int32.mul 0 chunk_size) chunk_size) n)
            (Int32.mul 0 chunk_size) = Z.min chunk_size n.
Proof.
  intros Hn Hc. unfold Int32.mul, Int32.add, Int32.sub. simpl (0 * _).
  change (Int32.wrap 0) with 0. rewrite Z.add_0_l.
  rewrite (wrap_in_range chunk_size) by exact Hc.
  rewrite min_spec, Z.sub_0_r.
  apply wrap_in_range.
  unfold Int32.in_range, Int32.INT_MIN, Int32.INT_MAX in *; lia.
Qed.

(** C6, counterexample: neither chunker rejects [chunk_size = -1]; on two
    elements (two rows) each returns an empty list of chunks. *)
Lemma chunkers_accept_negative_chunk_size :
  ~ (forall x chunk_size, chunk_size <= 0 ->
       split_vector_chunks x chunk_size = Raised InvalidArgument) /\
  ~ (forall mat chunk_size, chunk_size <= 0 ->
       split_matrix_chunks mat chunk_size = Raised InvalidArgument).
Proof.
  split; intros H.
  - specialize (H [of_Z 1; of_Z 2] (-1) ltac:(lia)).
    vm_compute in H. discriminate H.
  - specialize (H {| nrow := 2; ncol := 1; cells := [of_Z 1; of_Z 2] |} (-1)
                  ltac:(lia)).
    vm_compute in H. discriminate H.
Qed.

(** C6, amended: for an [int] [chunk_size] that is not positive, and a
    matrix whose row count is an [int] that is not negative, the chunkers
    do not validate [chunk_size] and never fail with [InvalidArgument];
    they terminate on every such input.  With [chunk_size = 0] the chunk
    count divides by zero, for which the language defines no behaviour.
    With [chunk_size < 0] the matrix chunker either returns an empty list
    of chunks or stops on R's refusal of a negative extent, and so does the
    vector chunker, for a vector of any length, with one exception: when
    [chunk_size = -1] and the length, reduced to an [int], is [INT_MIN + 2]
    (a long vector of at least [2 ^ 31 + 2] elements), the chunk count is
    [INT_MIN / -1], which is undefined as well. *)
Theorem chunkers_do_not_validate_chunk_size
        (x : NumericVector) (mat : NumericMatrix) (chunk_size : Z) :
  Int32.INT_MIN <= chunk_size <= 0 ->
  0 <= nrow mat <= Int32.INT_MAX ->
  let n := Int32.wrap (Z.of_nat (length x)) in
  let vcall := split_vector_chunks x chunk_size in
  let mcall := split_matrix_chunks mat chunk_size in
  (vcall <> Raised InvalidArgument /\ mcall <> Raised InvalidArgument) /\
  if chunk_size =? 0 then vcall = Fault /\ mcall = Fault
  else (if (chunk_size =? -1) && (n =? Int32.INT_MIN + 2)
        then vcall = Fault
        else vcall = Returned [] \/ vcall = Raised NegativeLength) /\
       (mcall = Returned [] \/ mcall = Raised NegativeLength).
Proof.
  intros Hc Hm. cbv zeta.
  assert (Hv : if chunk_size =? 0
               then split_vector_chunks x chunk_size = Fault
               else if (chunk_size =? -1) &&
                       (Int32.wrap (Z.of_nat (length x)) =? Int32.INT_MIN + 2)
                    then split_vector_chunks x chunk_size = Fault
                    else split_vector_chunks x chunk_size = Returned [] \/
                         split_vector_chunks x chunk_size
                         = Raised NegativeLength).
  { destruct (Z.eqb_spec chunk_size 0) as [-> | Hne]; [reflexivity |].
    pose proof (wrap_bounds (Z.of_nat (length x))) as Hn.
    destruct ((chunk_size =? -1) &&
              (Int32.wrap (Z.of_nat (length x)) =? Int32.INT_MIN + 2))
      eqn:Hex.
    - unfold split_vector_chunks. cbv zeta.
      now rewrite (div_negative_undefined _ _ Hex).
    - unfold split_vector_chunks. cbv zeta.
      apply (nonpositive_chunk_size_skeleton
               (Int32.wrap (Z.of_nat (length x))) chunk_size);
        [exact Hn | lia | exact Hex |].
      intros s. rewrite first_chunk_extent
        by (unfold Int32.in_range, Int32.INT_MAX in *; lia).
      unfold allocate.
      destruct (Z.ltb_spec
                  (Z.min chunk_size (Int32.wrap (Z.of_nat (length x)))) 0);
        [reflexivity | lia]. }
  assert (Hmat : if chunk_size =? 0
                 then split_matrix_chunks mat chunk_size = Fault
                 else split_matrix_chunks mat chunk_size = Returned [] \/
                      split_matrix_chunks mat chunk_size
                      = Raised NegativeLength).
  { destruct (Z.eqb_spec chunk_size 0) as [-> | Hne]; [reflexivity |].
    unfold split_matrix_chunks. cbv zeta.
    apply (nonpositive_chunk_size_skeleton (nrow mat) chunk_size).
    - unfold Int32.in_range, Int32.INT_MIN, Int32.INT_MAX in *. lia.
    - lia.
    - apply andb_false_iff. right. apply Z.eqb_neq.
      unfold Int32.INT_MIN. lia.
    - intros s. rewrite first_chunk_extent
        by (unfold Int32.in_range, Int32.INT_MIN, Int32.INT_MAX in *; lia).
      destruct (Z.ltb_spec (Z.min chunk_size (nrow mat)) 0);
        [reflexivity | lia]. }
  split.
  - split; intros E; rewrite E in *.
    + destruct (chunk_size =? 0); [discriminate Hv |].
      destruct ((chunk_size =? -1) && _);
        [discriminate Hv | destruct Hv as [H | H]; discriminate H].
    + destruct (chunk_size =? 0);
        [discriminate Hmat | destruct Hmat as [H | H]; discriminate H].
  - destruct (chunk_size =? 0); [split; assumption |].
    split; assumption.
Qed.

(** Three elements, three rows, and [chunk_size = -2]: the chunk count is 0
    and both calls return an empty list. *)
Lemma chunkers_do_not_validate_chunk_size_witness :
  let x := [of_Z 1; of_Z 2; of_Z 3] in
  let mat := {| nrow := 3; ncol := 1; cells := [of_Z 1; of_Z 2; of_Z 3] |} in
  (split_vector_chunks x (-2) <> Raised InvalidArgument /\
   split_matrix_chunks mat (-2) <> Raised InvalidArgument) /\
  (split_vector_chunks x (-2) = Returned [] \/
   split_vector_chunks x (-2) = Raised NegativeLength) /\
  (split_matrix_chunks mat (-2) = Returned [] \/
   split_matrix_chunks mat (-2) = Raised NegativeLength).
Proof.
  cbv zeta.
  refine (chunkers_do_not_validate_chunk_size
            [of_Z 1; of_Z 2; of_Z 3]
            {| nrow := 3; ncol := 1; cells := [of_Z 1; of_Z 2; of_Z 3] |}
            (-2) _ _); unfold Int32.INT_MIN, Int32.INT_MAX; simpl; lia.
Defined.

(** ** RAM Threshold Monitor *)

Lemma SFcompare_antisym (x y : double) :
  SFcompare y x = option_map CompOpp (SFcompare x y).
Proof.
  destruct x as [sx | sx | | sx mx ex], y as [sy | sy | | sy my ey];
    simpl; try reflexivity;
    try (destruct sx; reflexivity); try (destruct sy; reflexivity);
    try (destruct sx, sy; reflexivity).
  destruct sx, sy; simpl; try reflexivity;
    rewrite (Z.compare_antisym ex ey);
    destruct (ex ?= ey); simpl; try reflexivity;
    rewrite (Pos.compare_cont_antisym mx my Eq); reflexivity.
Qed.

Lemma gt_iff_compare (x y : double) :
  gt x y = true <-> SFcompare x y = Some Gt.
Proof.
  unfold gt, SFltb. rewrite SFcompare_antisym.
  destruct (SFcompare x y) as [[ | | ] |]; simpl; split; congruence.
Qed.

(** C8: the monitor answers true exactly when the reading delivered by
    [get_ram_usage_cpp], on the same platform and operating-system state, is
    strictly greater than [max_ram_mb] in the order of binary64; a NaN on
    either side gives false. *)
Theorem ram_threshold_exceeded_iff
        (extract_double : String.string -> option double)
        (uninitialised : double)
        (p : platform) (os : os_state) (max_ram_mb : double) :
  (ram_threshold_exceeded extract_double uninitialised p os max_ram_mb
   = true <->
   SFcompare (get_ram_usage_cpp extract_double uninitialised p os)
             max_ram_mb = Some Gt) /\
  ram_threshold_exceeded extract_double uninitialised p os max_ram_mb
  = gt (get_ram_usage_cpp extract_double uninitialised p os) max_ram_mb.
Proof.
  split; [apply gt_iff_compare | reflexivity].
Qed.

(** The controlled readings of the specification: 100 MB against a ceiling
    of 50 MB exceeds it, 40 MB does not.  The reading comes from the
    [getrusage] fallback of a Linux build. *)
Example ram_threshold_exceeded_controlled
        (extract_double : String.string -> option double)
        (uninitialised : double) :
  let reading kb := {| private_usage := None; proc_status := None;
                       ru_maxrss := kb |} in
  get_ram_usage_cpp extract_double uninitialised Linux (reading 102400)
  = of_Z 100 /\
  ram_threshold_exceeded extract_double uninitialised Linux
    (reading 102400) (of_Z 50)
    = true /\
  ram_threshold_exceeded extract_double uninitialised Linux
    (reading 40960) (of_Z 50)
    = false.
Proof. repeat split. Qed.

(** ** Array Chunker: matrices *)

(** C4, at the failing input: a matrix of four rows and two columns with
    [chunk_size = INT_MAX].  [nrows + chunk_size - 1] wraps around, the chunk
    count is 0, and the call returns no chunk at all: the rows of the matrix
    are not reproduced. *)
Theorem split_matrix_chunks_drops_rows_on_wrap :
  let mat := {| nrow := 4; ncol := 2;
                cells := [of_Z 1; of_Z 2; of_Z 3; of_Z 4;
                          of_Z 5; of_Z 6; of_Z 7; of_Z 8] |} in
  1 <= Int32.INT_MAX /\
  split_matrix_chunks mat Int32.INT_MAX = Returned [] /\
  (forall chunks, split_matrix_chunks mat Int32.INT_MAX
                  = Returned (map MATSXP chunks) ->
                  concat (map matrix_rows chunks) <> matrix_rows mat).
Proof.
  cbv zeta. split; [vm_compute; congruence |].
  split; [reflexivity |].
  intros chunks H.
  assert (E : split_matrix_chunks
                {| nrow := 4; ncol := 2;
                   cells := [of_Z 1; of_Z 2; of_Z 3; of_Z 4;
                             of_Z 5; of_Z 6; of_Z 7; of_Z 8] |} Int32.INT_MAX
              = Returned []) by reflexivity.
  rewrite E in H. injection H as H.
  destruct chunks; [discriminate | discriminate H].
Qed.

Lemma length_flat_map_uniform {A : Type} (f : nat -> list A) (rows s m : nat) :
  (forall c, (s <= c < s + m)%nat -> length (f c) = rows) ->
  length (flat_map f (seq s m)) = (rows * m)%nat.
Proof.
  revert s; induction m as [| m IH]; intros s H; simpl; [lia |].
  rewrite length_app, IH, H by (intros; try apply H; lia). lia.
Qed.

Lemma nth_error_flat_map_uniform {A : Type} (f : nat -> list A)
      (rows s m r c : nat) :
  (forall c, (s <= c < s + m)%nat -> length (f c) = rows) ->
  (r < rows)%nat -> (c < m)%nat ->
  nth_error (flat_map f (seq s m)) (r + rows * c) = nth_error (f (s + c)%nat) r.
Proof.
  revert s c; induction m as [| m IH]; intros s c H Hr Hc; [lia |].
  simpl. destruct c as [| c].
  - rewrite nth_error_app1 by (rewrite H; lia).
    now rewrite Nat.mul_0_r, !Nat.add_0_r.
  - rewrite nth_error_app2 by (rewrite H; nia).
    rewrite H by lia.
    replace (r + rows * S c - rows)%nat with (r + rows * c)%nat by nia.
    rewrite IH by (intros; try apply H; lia).
    f_equal. f_equal. lia.
Qed.

Lemma map_seq_shift {A : Type} (f g : nat -> A) (s n : nat) :
  (forall r, (r < n)%nat -> f r = g (s + r)%nat) ->
  map f (seq 0 n) = map g (seq s n).
Proof.
  intros H. apply nth_error_ext. intros k.
  rewrite !nth_error_map, !nth_error_seq.
  destruct (Nat.ltb_spec k n); simpl; [| reflexivity].
  now rewrite H.
Qed.

Lemma slice_map_seq {A : Type} (g : nat -> A) (n start rows : nat) :
  (start + rows <= n)%nat ->
  slice (map g (seq 0 n)) start rows = map g (seq start rows).
Proof.
  intros H. apply nth_error_ext. intros k. unfold slice.
  rewrite nth_error_firstn, nth_error_skipn, !nth_error_map, !nth_error_seq.
  destruct (Nat.ltb_spec k rows); [| reflexivity].
  destruct (Nat.ltb_spec (start + k) n); [reflexivity | lia].
Qed.

Section MatrixPartition.

Variable mat : NumericMatrix.
Variable chunk_size : Z.

Hypothesis mat_well_formed : well_formed mat.
Hypothesis chunk_size_positive : 1 <= chunk_size.
Hypothesis sum_fits : nrow mat + chunk_size - 1 <= Int32.INT_MAX.

Lemma length_matrix_rows : Z.of_nat (length (matrix_rows mat)) = nrow mat.
Proof.
  unfold matrix_rows. rewrite length_map, length_seq.
  destruct mat_well_formed as [H _]. lia.
Qed.

Lemma length_column_slice (start rows c : nat) :
  (start + rows <= Z.to_nat (nrow mat))%nat -> (c < Z.to_nat (ncol mat))%nat ->
  length (slice (cells mat) (start + Z.to_nat (nrow mat) * c) rows) = rows.
Proof.
  intros Hs Hc. apply length_slice.
  destruct mat_well_formed as [Hr [Hcol Hlen]]. nia.
Qed.

Lemma length_block_cells (start rows : nat) :
  (start + rows <= Z.to_nat (nrow mat))%nat ->
  length (block_cells mat start rows) = (rows * Z.to_nat (ncol mat))%nat.
Proof.
  intros Hs. unfold block_cells. apply length_flat_map_uniform.
  intros c Hc. apply length_column_slice; lia.
Qed.

(** Cell [(r, c)] of a block is cell [(start + r, c)] of the matrix. *)
Lemma nth_error_block_cells (start rows r c : nat) :
  (start + rows <= Z.to_nat (nrow mat))%nat ->
  (r < rows)%nat -> (c < Z.to_nat (ncol mat))%nat ->
  nth_error (block_cells mat start rows) (r + rows * c)
  = nth_error (cells mat) (start + r + Z.to_nat (nrow mat) * c).
Proof.
  intros Hs Hr Hc. unfold block_cells.
  rewrite nth_error_flat_map_uniform
    by (try (intros; apply length_column_slice); lia).
  simpl. rewrite nth_error_slice by exact Hr. f_equal. lia.
Qed.

Lemma matrix_rows_block (start rows : nat) :
  (start + rows <= Z.to_nat (nrow mat))%nat ->
  matrix_rows (matrix_block mat start rows)
  = slice (matrix_rows mat) start rows.
Proof.
  intros Hs. unfold matrix_rows at 2.
  rewrite slice_map_seq by exact Hs.
  unfold matrix_rows. simpl nrow. rewrite Nat2Z.id.
  apply map_seq_shift. intros r Hr.
  unfold matrix_row. simpl. rewrite Nat2Z.id.
  apply map_ext_in. intros c Hc. apply in_seq in Hc.
  destruct mat_well_formed as [Hrow [Hcol Hlen]].
  destruct (nth_error (cells mat) (start + r + Z.to_nat (nrow mat) * c))
    as [v |] eqn:Ev.
  2: { apply nth_error_None in Ev. nia. }
  rewrite (nth_error_nth _ _ zero Ev).
  apply nth_error_nth. rewrite nth_error_block_cells by lia. exact Ev.
Qed.

Lemma nrow_fits : 0 <= nrow mat <= Int32.INT_MAX.
Proof. destruct mat_well_formed as [H _]. lia. Qed.

(** The two nested loops copy a block of the matrix. *)
Lemma copy_block (start rows : nat) :
  (start + rows <= Z.to_nat (nrow mat))%nat ->
  for_loop (Z.of_nat rows) (fun r chunk =>
    for_loop (ncol mat) (fun c chunk =>
      v <- load (cells mat)
             (offset (nrow mat) (Int32.add (Z.of_nat start) r) c) ;;
      store chunk (offset (Z.of_nat rows) r c) v) chunk)
    (repeat zero (rows * Z.to_nat (ncol mat)))
  = Returned (block_cells mat start rows).
Proof.
  intros Hs. pose proof nrow_fits as Hn.
  destruct mat_well_formed as [Hrow [Hcol Hlen]].
  unfold for_loop.
  apply (fills_all (block_cells mat start rows)
           (fun k => exists r, In r (upto (Z.of_nat rows)) /\
                     exists c, In c (upto (ncol mat)) /\
                               Z.of_nat k = offset (Z.of_nat rows) r c)).
  - apply fills_for_each with
      (W := fun r k => exists c, In c (upto (ncol mat)) /\
                                 Z.of_nat k = offset (Z.of_nat rows) r c).
    intros r Hr. apply in_upto in Hr.
    apply fills_for_each with
      (W := fun c k => Z.of_nat k = offset (Z.of_nat rows) r c).
    intros c Hc. apply in_upto in Hc.
    set (p := (Z.to_nat r + rows * Z.to_nat c)%nat).
    destruct (nth_error (cells mat)
                (start + Z.to_nat r + Z.to_nat (nrow mat) * Z.to_nat c))
      as [v |] eqn:Ev.
    2: { apply nth_error_None in Ev. nia. }
    apply (fills_weaken _ (eq p));
      [intros k Hk; unfold offset in Hk; unfold p; nia |].
    apply (fills_ext _ _ (fun s => store s (Z.of_nat p) v)).
    + intros s. unfold load, Int32.add, offset.
      rewrite wrap_in_range
        by (unfold Int32.in_range, Int32.INT_MIN, Int32.INT_MAX in *; lia).
      destruct (Z.ltb_spec (Z.of_nat start + r + nrow mat * c) 0); [nia |].
      replace (Z.to_nat (Z.of_nat start + r + nrow mat * c))
        with (start + Z.to_nat r + Z.to_nat (nrow mat) * Z.to_nat c)%nat
        by nia.
      rewrite Ev. simpl. f_equal. unfold p. nia.
    + apply fills_store. unfold p.
      rewrite nth_error_block_cells by lia. exact Ev.
  - rewrite length_block_cells by exact Hs. intros k Hk.
    assert (Hrows : rows <> 0%nat) by nia.
    exists (Z.of_nat (k mod rows)). split.
    { apply in_upto. pose proof (Nat.mod_upper_bound k rows Hrows). lia. }
    exists (Z.of_nat (k / rows)). split.
    { apply in_upto.
      assert (k / rows < Z.to_nat (ncol mat))%nat
        by (apply Nat.Div0.div_lt_upper_bound; lia).
      lia. }
    unfold offset. pose proof (Nat.div_mod_eq k rows). nia.
  - rewrite repeat_length. symmetry. apply length_block_cells. exact Hs.
Qed.

Lemma length_matrix_rows_nat : length (matrix_rows mat) = Z.to_nat (nrow mat).
Proof. unfold matrix_rows. now rewrite length_map, length_seq. Qed.

Lemma matrix_chunk_step (i : Z) (result : List) :
  0 <= i < Z.of_nat (chunk_count (matrix_rows mat) chunk_size) ->
  (let start := Int32.mul i chunk_size in
   let end_ := Int32.min (Int32.add start chunk_size) (nrow mat) in
   let chunk_rows := Int32.sub end_ start in
   chunk <- (if (chunk_rows <? 0) || (ncol mat <? 0) then Raised NegativeLength
             else allocate zero (chunk_rows * ncol mat)) ;;
   chunk <- for_loop chunk_rows (fun r chunk =>
     for_loop (ncol mat) (fun c chunk =>
       v <- load (cells mat) (offset (nrow mat) (Int32.add start r) c) ;;
       store chunk (offset chunk_rows r c) v) chunk) chunk ;;
   store result i
     (MATSXP {| nrow := chunk_rows; ncol := ncol mat; cells := chunk |}))
  = store result (Z.of_nat (Z.to_nat i))
          (MATSXP (matrix_chunk mat chunk_size (Z.to_nat i))).
Proof.
  intros Hi. pose proof nrow_fits as Hn.
  destruct mat_well_formed as [Hrow [Hcol Hlen]].
  destruct (chunk_bounds_step (matrix_rows mat) chunk_size
              chunk_size_positive i)
    as [Es [El Hin]];
    [rewrite length_matrix_rows; exact sum_fits | exact Hi |].
  rewrite length_matrix_rows in El.
  rewrite length_matrix_rows_nat in El, Hin.
  cbv zeta. rewrite Es, El.
  match goal with |- context [Z.of_nat ?l <? 0] =>
    destruct (Z.ltb_spec (Z.of_nat l) 0); [lia |] end.
  destruct (Z.ltb_spec (ncol mat) 0); [lia |]. simpl orb. cbv iota.
  unfold allocate.
  match goal with |- context [?a * ncol mat <? 0] =>
    destruct (Z.ltb_spec (a * ncol mat) 0); [nia |] end.
  simpl bind at 1.
  match goal with
  | |- context [repeat zero (Z.to_nat (Z.of_nat ?l * ncol mat))] =>
    replace (Z.to_nat (Z.of_nat l * ncol mat))
      with (l * Z.to_nat (ncol mat))%nat by nia end.
  rewrite copy_block by exact Hin.
  simpl bind. rewrite Z2Nat.id by lia. reflexivity.
Qed.

Lemma split_matrix_chunks_eq :
  split_matrix_chunks mat chunk_size
  = Returned (map MATSXP
                (map (matrix_chunk mat chunk_size)
                     (seq 0 (chunk_count (matrix_rows mat) chunk_size)))).
Proof.
  pose proof nrow_fits as Hn.
  set (k := chunk_count (matrix_rows mat) chunk_size).
  unfold split_matrix_chunks. cbv zeta.
  rewrite <- (wrap_in_range (nrow mat)) at 1
    by (unfold Int32.in_range, Int32.INT_MIN, Int32.INT_MAX in *; lia).
  rewrite <- length_matrix_rows at 1.
  rewrite num_chunks_eq
    by (try rewrite length_matrix_rows; assumption).
  fold k. simpl. unfold allocate.
  destruct (Z.ltb_spec (Z.of_nat k) 0); [lia |].
  rewrite Nat2Z.id. simpl. unfold for_loop.
  apply (fills_all
           (map MATSXP (map (matrix_chunk mat chunk_size) (seq 0 k)))
           (fun j => exists i, In i (upto (Z.of_nat k)) /\ Z.of_nat j = i)).
  - apply fills_for_each. intros i Hi. apply in_upto in Hi.
    apply (fills_weaken _ (eq (Z.to_nat i))); [intros j Hj; lia |].
    apply (fills_ext _ _
             (fun s => store s (Z.of_nat (Z.to_nat i))
                         (MATSXP (matrix_chunk mat chunk_size (Z.to_nat i))))).
    + intros s. symmetry. apply (matrix_chunk_step i s Hi).
    + apply fills_store, map_nth_error, map_nth_error.
      rewrite nth_error_seq.
      destruct (Nat.ltb_spec (Z.to_nat i) k); [reflexivity | lia].
  - rewrite !length_map, length_seq. intros j Hj.
    exists (Z.of_nat j). split; [apply in_upto; lia | reflexivity].
  - now rewrite repeat_length, !length_map, length_seq.
Qed.

(** The rows of chunk [i] are slice [i] of the rows of the matrix. *)
Lemma matrix_rows_chunk (i : nat) :
  (i < chunk_count (matrix_rows mat) chunk_size)%nat ->
  matrix_rows (matrix_chunk mat chunk_size i)
  = chunk_slice (matrix_rows mat) chunk_size i.
Proof.
  intros Hi. unfold matrix_chunk, chunk_slice.
  rewrite length_matrix_rows_nat.
  apply matrix_rows_block.
  destruct (chunk_count_bounds (matrix_rows mat) chunk_size chunk_size_positive)
    as [_ [H _]].
  rewrite length_matrix_rows in H. pose proof nrow_fits. nia.
Qed.

Lemma concat_matrix_rows_chunks :
  concat (map matrix_rows
            (map (matrix_chunk mat chunk_size)
                 (seq 0 (chunk_count (matrix_rows mat) chunk_size))))
  = matrix_rows mat.
Proof.
  rewrite map_map.
  rewrite <- (concat_chunk_slices (matrix_rows mat) chunk_size
                chunk_size_positive) at 2.
  unfold chunk_slices. f_equal. apply map_ext_in.
  intros i Hi. apply in_seq in Hi. apply matrix_rows_chunk. lia.
Qed.

End MatrixPartition.

(** X2: without wrap-around, [split_matrix_chunks] partitions the rows of a
    well-formed matrix: every chunk has the column count of [mat], between 1
    and [chunk_size] rows, and the rows of the chunks, stacked in order, are
    the rows of [mat]. *)
Theorem split_matrix_chunks_partition (mat : NumericMatrix) (chunk_size : Z) :
  well_formed mat ->
  1 <= chunk_size ->
  nrow mat + chunk_size - 1 <= Int32.INT_MAX ->
  exists chunks : list NumericMatrix,
    split_matrix_chunks mat chunk_size = Returned (map MATSXP chunks) /\
    Forall (fun chunk => ncol chunk = ncol mat /\
                         1 <= nrow chunk <= chunk_size) chunks /\
    Z.of_nat (length chunks) = (nrow mat + chunk_size - 1) / chunk_size /\
    concat (map matrix_rows chunks) = matrix_rows mat.
Proof.
  intros Hwf Hc Hfit.
  exists (map (matrix_chunk mat chunk_size)
              (seq 0 (chunk_count (matrix_rows mat) chunk_size))).
  split; [apply split_matrix_chunks_eq; assumption |].
  split; [| split].
  - apply Forall_forall. intros chunk Hin.
    apply in_map_iff in Hin. destruct Hin as [i [<- Hi]].
    apply in_seq in Hi. split; [reflexivity |].
    destruct (chunk_slice_sizes (matrix_rows mat) chunk_size Hc i ltac:(lia))
      as [_ Hsize].
    rewrite length_chunk_slice in Hsize by lia.
    rewrite length_matrix_rows_nat in Hsize.
    unfold matrix_chunk, matrix_block. simpl nrow. exact Hsize.
  - rewrite length_map, length_seq.
    destruct (chunk_count_bounds (matrix_rows mat) chunk_size Hc) as [E _].
    rewrite length_matrix_rows in E by exact Hwf. exact E.
  - apply concat_matrix_rows_chunks; assumption.
Qed.

(** Three rows and two columns in chunks of two rows. *)
Lemma split_matrix_chunks_partition_witness :
  let mat := {| nrow := 3; ncol := 2;
                cells := [of_Z 1; of_Z 2; of_Z 3; of_Z 4; of_Z 5; of_Z 6] |} in
  exists chunks : list NumericMatrix,
    split_matrix_chunks mat 2 = Returned (map MATSXP chunks) /\
    Forall (fun chunk => ncol chunk = ncol mat /\ 1 <= nrow chunk <= 2)
           chunks /\
    Z.of_nat (length chunks) = (nrow mat + 2 - 1) / 2 /\
    concat (map matrix_rows chunks) = matrix_rows mat.
Proof.
  cbv zeta.
  apply (split_matrix_chunks_partition
           {| nrow := 3; ncol := 2;
              cells := [of_Z 1; of_Z 2; of_Z 3; of_Z 4; of_Z 5; of_Z 6] |} 2);
    unfold well_formed, Int32.INT_MAX; simpl; lia.
Defined.

(** ** Array Chunker: edge cases *)

(** X3: an empty vector, and a matrix without rows, give an empty list of
    chunks for every positive [chunk_size]; the columns and the storage of
    the matrix play no part. *)
Theorem split_chunks_of_nothing
        (chunk_size ncols : Z) (storage : list double) :
  1 <= chunk_size <= Int32.INT_MAX ->
  split_vector_chunks [] chunk_size = Returned [] /\
  split_matrix_chunks {| nrow := 0; ncol := ncols; cells := storage |}
                      chunk_size = Returned [].
Proof.
  intros Hc.
  assert (E : Int32.div (Int32.sub (Int32.add 0 chunk_size) 1) chunk_size
              = Some 0).
  { unfold Int32.sub, Int32.add. rewrite Z.add_0_l.
    replace (Int32.wrap chunk_size - 1) with (Int32.wrap chunk_size + -1)
      by lia.
    rewrite wrap_add_l.
    rewrite wrap_in_range
      by (unfold Int32.in_range, Int32.INT_MIN, Int32.INT_MAX in *; lia).
    unfold Int32.div.
    destruct (Z.eqb_spec chunk_size 0); [lia |].
    destruct (Z.eqb_spec chunk_size (-1)); [lia |].
    rewrite andb_false_r, Z.quot_small by lia. reflexivity. }
  split.
  - unfold split_vector_chunks. cbv zeta. simpl length.
    change (Int32.wrap (Z.of_nat 0)) with 0. rewrite E. reflexivity.
  - unfold split_matrix_chunks. cbv zeta. simpl nrow.
    rewrite E. reflexivity.
Qed.

(** A chunk size at the range limit. *)
Lemma split_chunks_of_nothing_witness :
  split_vector_chunks [] Int32.INT_MAX = Returned [] /\
  split_matrix_chunks {| nrow := 0; ncol := 3; cells := [] |} Int32.INT_MAX
    = Returned [].
Proof.
  apply (split_chunks_of_nothing Int32.INT_MAX 3 []).
  unfold Int32.INT_MAX. lia.
Defined.

(** X4: a [chunk_size] that covers the whole vector gives one chunk, the vector
    itself. *)
Theorem split_vector_chunks_single (x : NumericVector) (chunk_size : Z) :
  (1 <= length x)%nat ->
  Z.of_nat (length x) <= chunk_size ->
  Z.of_nat (length x) + chunk_size - 1 <= Int32.INT_MAX ->
  split_vector_chunks x chunk_size = Returned [REALSXP x].
Proof.
  intros Hx Hc Hfit.
  rewrite split_vector_chunks_eq by lia.
  assert (Ek : chunk_count x chunk_size = 1%nat).
  { unfold chunk_count.
    replace ((Z.of_nat (length x) + chunk_size - 1) / chunk_size) with 1;
      [reflexivity |].
    apply Z.div_unique with (Z.of_nat (length x) - 1); lia. }
  unfold chunk_slices. rewrite Ek. simpl.
  rewrite chunk_slice_firstn. simpl.
  rewrite firstn_all2 by lia. reflexivity.
Qed.

(** Three elements and a chunk size of ten. *)
Lemma split_vector_chunks_single_witness :
  split_vector_chunks [of_Z 7; of_Z 8; of_Z 9] 10
  = Returned [REALSXP [of_Z 7; of_Z 8; of_Z 9]].
Proof.
  apply (split_vector_chunks_single [of_Z 7; of_Z 8; of_Z 9] 10);
    unfold Int32.INT_MAX; simpl; lia.
Defined.

(** ** Array Chunker: when the chunk count wraps around *)

Lemma wrap_above (z : Z) :
  2 ^ 31 <= z < 2 ^ 32 + 2 ^ 31 -> Int32.wrap z = z - 2 ^ 32.
Proof.
  intros H. unfold Int32.wrap.
  replace (z + 2 ^ 31) with (z - 2 ^ 31 + 1 * 2 ^ 32) by lia.
  rewrite Z.mod_add by lia. rewrite Z.mod_small; lia.
Qed.

(** Past [INT_MAX] the sum [n + chunk_size - 1] wraps to a negative number:
    the quotient is 0 or negative. *)
Lemma wrapped_chunk_count (n chunk_size : Z) :
  1 <= chunk_size <= Int32.INT_MAX ->
  0 <= n <= Int32.INT_MAX ->
  Int32.INT_MAX < n + chunk_size - 1 ->
  exists q,
    Int32.div (Int32.sub (Int32.add n chunk_size) 1) chunk_size = Some q /\
    q <= 0 /\
    (q = 0 <-> 2 ^ 32 - (n + chunk_size - 1) < chunk_size).
Proof.
  unfold Int32.INT_MAX. intros Hc Hn Hw.
  unfold Int32.sub, Int32.add.
  replace (Int32.wrap (n + chunk_size) - 1)
    with (Int32.wrap (n + chunk_size) + -1) by lia.
  rewrite wrap_add_l, wrap_above by lia.
  unfold Int32.div.
  destruct (Z.eqb_spec chunk_size 0); [lia |].
  destruct (Z.eqb_spec chunk_size (-1)); [lia |].
  rewrite andb_false_r. eexists. split; [reflexivity |].
  set (a := 2 ^ 32 - (n + chunk_size - 1)).
  replace (n + chunk_size + -1 - 2 ^ 32) with (- a) by (unfold a; lia).
  assert (Ha : 0 < a) by (unfold a; lia).
  rewrite Z.quot_opp_l, Z.quot_div_nonneg by lia.
  pose proof (Z.div_pos a chunk_size ltac:(lia) ltac:(lia)).
  split; [lia |]. split; intros H0.
  - assert (H1 : a / chunk_size = 0) by lia.
    apply Z.div_small_iff in H1; lia.
  - rewrite Z.div_small; lia.
Qed.

Lemma wrapped_count_skeleton
      (n chunk_size : Z) (body : Z -> List -> outcome List) :
  1 <= chunk_size <= Int32.INT_MAX ->
  0 <= n <= Int32.INT_MAX ->
  Int32.INT_MAX < n + chunk_size - 1 ->
  (num_chunks <- of_option
     (Int32.div (Int32.sub (Int32.add n chunk_size) 1) chunk_size) ;;
   result <- allocate R_NilValue num_chunks ;;
   for_loop num_chunks body result)
  = if 2 ^ 32 - (n + chunk_size - 1) <? chunk_size
    then Returned [] else Raised NegativeLength.
Proof.
  intros Hc Hn Hw.
  destruct (wrapped_chunk_count n chunk_size Hc Hn Hw) as [q [-> [Hq Hz]]].
  cbn [of_option bind]. unfold allocate.
  destruct (Z.ltb_spec (2 ^ 32 - (n + chunk_size - 1)) chunk_size) as [H | H].
  - apply Hz in H. subst q. reflexivity.
  - destruct (Z.ltb_spec q 0); [reflexivity |].
    assert (q = 0) by lia. apply Hz in H1. lia.
Qed.

(** X5: when [n + chunk_size - 1] exceeds [INT_MAX], [split_vector_chunks] never
    delivers the elements of the vector: it returns an empty list when
    [2^32 - (n + chunk_size - 1) < chunk_size], and stops on a negative
    length otherwise. *)
Theorem split_vector_chunks_wrapped (x : NumericVector) (chunk_size : Z) :
  1 <= chunk_size <= Int32.INT_MAX ->
  Z.of_nat (length x) <= Int32.INT_MAX ->
  Int32.INT_MAX < Z.of_nat (length x) + chunk_size - 1 ->
  x <> [] /\
  split_vector_chunks x chunk_size
  = if 2 ^ 32 - (Z.of_nat (length x) + chunk_size - 1) <? chunk_size
    then Returned [] else Raised NegativeLength.
Proof.
  intros Hc Hx Hw. split.
  - intros ->. simpl in Hw. lia.
  - unfold split_vector_chunks. cbv zeta.
    rewrite (wrap_in_range (Z.of_nat (length x)))
      by (unfold Int32.in_range, Int32.INT_MIN, Int32.INT_MAX in *; lia).
    apply wrapped_count_skeleton; lia.
Qed.

(** Two elements and the largest chunk size: the wrapped count is -1. *)
Lemma split_vector_chunks_wrapped_witness :
  [of_Z 1; of_Z 2] <> [] /\
  split_vector_chunks [of_Z 1; of_Z 2] Int32.INT_MAX = Raised NegativeLength.
Proof.
  apply (split_vector_chunks_wrapped [of_Z 1; of_Z 2] Int32.INT_MAX);
    unfold Int32.INT_MAX; simpl; lia.
Defined.

(** X6: when [nrow + chunk_size - 1] exceeds [INT_MAX],
    [split_matrix_chunks] never delivers the rows of the matrix: it returns
    an empty list when [2^32 - (nrow + chunk_size - 1) < chunk_size], and
    stops on a negative length otherwise. *)
Theorem split_matrix_chunks_wrapped (mat : NumericMatrix) (chunk_size : Z) :
  1 <= chunk_size <= Int32.INT_MAX ->
  0 <= nrow mat <= Int32.INT_MAX ->
  Int32.INT_MAX < nrow mat + chunk_size - 1 ->
  1 <= nrow mat /\
  split_matrix_chunks mat chunk_size
  = if 2 ^ 32 - (nrow mat + chunk_size - 1) <? chunk_size
    then Returned [] else Raised NegativeLength.
Proof.
  intros Hc Hn Hw. split; [lia |].
  unfold split_matrix_chunks. cbv zeta.
  apply wrapped_count_skeleton; lia.
Qed.

(** Five rows and the largest chunk size: the wrapped count is 0. *)
Lemma split_matrix_chunks_wrapped_witness :
  1 <= 5 /\
  split_matrix_chunks
    {| nrow := 5; ncol := 1;
       cells := [of_Z 1; of_Z 2; of_Z 3; of_Z 4; of_Z 5] |}
    Int32.INT_MAX = Returned [].
Proof.
  apply (split_matrix_chunks_wrapped
           {| nrow := 5; ncol := 1;
              cells := [of_Z 1; of_Z 2; of_Z 3; of_Z 4; of_Z 5] |}
           Int32.INT_MAX);
    unfold Int32.INT_MAX; simpl; lia.
Defined.

(** ** Array Chunker: the cells of a matrix chunk *)

(** X7: without wrap-around every chunk of a well-formed matrix is itself well
    formed, and its cell [(r, c)] holds what [mat(i * chunk_size + r, c)]
    holds, [i] being the position of the chunk in the list. *)
Theorem split_matrix_chunks_cells (mat : NumericMatrix) (chunk_size : Z) :
  well_formed mat ->
  1 <= chunk_size ->
  nrow mat + chunk_size - 1 <= Int32.INT_MAX ->
  exists chunks : list NumericMatrix,
    split_matrix_chunks mat chunk_size = Returned (map MATSXP chunks) /\
    forall i chunk, nth_error chunks i = Some chunk ->
      well_formed chunk /\
      forall r c, 0 <= r < nrow chunk -> 0 <= c < ncol chunk ->
        exists v,
          load (cells chunk) (offset (nrow chunk) r c) = Returned v /\
          load (cells mat)
               (offset (nrow mat) (Z.of_nat i * chunk_size + r) c)
          = Returned v.
Proof.
  intros Hwf Hc Hfit.
  set (k := chunk_count (matrix_rows mat) chunk_size).
  exists (map (matrix_chunk mat chunk_size) (seq 0 k)).
  split; [apply split_matrix_chunks_eq; assumption |].
  intros i chunk Hnth.
  rewrite nth_error_map, nth_error_seq in Hnth.
  destruct (Nat.ltb_spec i k) as [Hi | Hi]; [| discriminate].
  simpl in Hnth. injection Hnth as <-.
  destruct (chunk_count_bounds (matrix_rows mat) chunk_size Hc)
    as [_ [Hlo _]].
  fold k in Hlo. rewrite length_matrix_rows in Hlo by exact Hwf.
  destruct Hwf as [Hrow [Hcol Hlen]].
  unfold matrix_chunk.
  set (start := (i * Z.to_nat chunk_size)%nat).
  set (rows := Nat.min (Z.to_nat chunk_size) (Z.to_nat (nrow mat) - start)).
  assert (Hin : (start + rows <= Z.to_nat (nrow mat))%nat)
    by (unfold rows, start; nia).
  assert (Hwf : well_formed mat) by (repeat split; assumption).
  split.
  - unfold well_formed, matrix_block. simpl.
    rewrite length_block_cells by assumption. nia.
  - unfold matrix_block. simpl. intros r c Hr Hcc.
    destruct (nth_error (cells mat)
                (start + Z.to_nat r + Z.to_nat (nrow mat) * Z.to_nat c))
      as [v |] eqn:Ev.
    2: { apply nth_error_None in Ev. nia. }
    exists v. unfold load, offset. split.
    + destruct (Z.ltb_spec (r + Z.of_nat rows * c) 0); [nia |].
      replace (Z.to_nat (r + Z.of_nat rows * c))
        with (Z.to_nat r + rows * Z.to_nat c)%nat by nia.
      rewrite nth_error_block_cells by (assumption || lia).
      rewrite Ev. reflexivity.
    + destruct (Z.ltb_spec (Z.of_nat i * chunk_size + r + nrow mat * c) 0);
        [nia |].
      replace (Z.to_nat (Z.of_nat i * chunk_size + r + nrow mat * c))
        with (start + Z.to_nat r + Z.to_nat (nrow mat) * Z.to_nat c)%nat
        by (unfold start; nia).
      rewrite Ev. reflexivity.
Qed.

(** Three rows and two columns in chunks of two rows. *)
Lemma split_matrix_chunks_cells_witness :
  let mat := {| nrow := 3; ncol := 2;
                cells := [of_Z 1; of_Z 2; of_Z 3; of_Z 4; of_Z 5; of_Z 6] |} in
  exists chunks : list NumericMatrix,
    split_matrix_chunks mat 2 = Returned (map MATSXP chunks) /\
    forall i chunk, nth_error chunks i = Some chunk ->
      well_formed chunk /\
      forall r c, 0 <= r < nrow chunk -> 0 <= c < ncol chunk ->
        exists v,
          load (cells chunk) (offset (nrow chunk) r c) = Returned v /\
          load (cells mat) (offset (nrow mat) (Z.of_nat i * 2 + r) c)
          = Returned v.
Proof.
  cbv zeta.
  apply (split_matrix_chunks_cells
           {| nrow := 3; ncol := 2;
              cells := [of_Z 1; of_Z 2; of_Z 3; of_Z 4; of_Z 5; of_Z 6] |} 2);
    unfold well_formed, Int32.INT_MAX; simpl; lia.
Defined.

(** ** The planner's result as a chunk size *)

(** X8: for a vector of at most [2^30] elements, whatever the planner returns
    for [total_rows = length x] is a chunk size with which
    [split_vector_chunks] partitions [x] into chunks that are never empty. *)
Theorem planned_chunks_partition
        (t : target) (x : NumericVector)
        (data_size_mb max_ram_mb target_fraction : double) (r : Z) :
  (1 <= length x)%nat ->
  Z.of_nat (length x) <= 2 ^ 30 ->
  calculate_optimal_chunk_size t data_size_mb (Z.of_nat (length x))
    max_ram_mb target_fraction = Returned r ->
  exists chunks : list NumericVector,
    split_vector_chunks x r = Returned (map REALSXP chunks) /\
    concat chunks = x /\
    Forall (fun chunk => 1 <= Z.of_nat (length chunk) <= r) chunks.
Proof.
  intros Hx Hmax Hr.
  rewrite calculate_optimal_chunk_size_eq in Hr. injection Hr as Hr.
  match type of Hr with context [ensure_minimum ?c] =>
    pose proof (ensure_minimum_ge c) as Hge end.
  assert (H1 : 1 <= r) by lia.
  assert (Hfit : Z.of_nat (length x) + r - 1 <= Int32.INT_MAX)
    by (unfold Int32.INT_MAX; lia).
  exists (chunk_slices x r). unfold NumericVector in *.
  split; [apply split_vector_chunks_eq; assumption |].
  split; [apply concat_chunk_slices; assumption |].
  apply Forall_forall. intros chunk Hin.
  unfold chunk_slices in Hin. apply in_map_iff in Hin.
  destruct Hin as [i [<- Hi]]. apply in_seq in Hi.
  apply (chunk_slice_sizes x r H1 i). lia.
Qed.

(** The documented scenario on a vector of five elements: the raw value
    [5 * 50 / 1000] is below 1, the plan is one row per chunk. *)
Lemma planned_chunks_partition_witness :
  let x := [of_Z 1; of_Z 2; of_Z 3; of_Z 4; of_Z 5] in
  exists chunks : list NumericVector,
    split_vector_chunks x 1 = Returned (map REALSXP chunks) /\
    concat chunks = x /\
    Forall (fun chunk => 1 <= Z.of_nat (length chunk) <= 1) chunks.
Proof.
  cbv zeta.
  apply (planned_chunks_partition x86_64
           [of_Z 1; of_Z 2; of_Z 3; of_Z 4; of_Z 5]
           (of_Z 1000) (of_Z 500) one_tenth 1);
    [simpl; lia | simpl; lia | reflexivity].
Defined.

(** ** Chunk Size Planner: arguments without a usable quotient *)

Lemma mul_nan_r (x : double) : mul x S754_nan = S754_nan.
Proof. destruct x; reflexivity. Qed.

Lemma div_nan_r (x : double) : div x S754_nan = S754_nan.
Proof. destruct x; reflexivity. Qed.

(** A quotient that is an infinity or a NaN has no conversion to [int]; an
    x86-64 build then returns 1, or [total_rows] when that is smaller. *)
Lemma planner_without_finite_quotient d n m f :
  is_finite (raw_quotient d n m f) = false ->
  to_int (floor (raw_quotient d n m f)) = None /\
  calculate_optimal_chunk_size x86_64 d n m f = Returned (Z.min n 1).
Proof.
  intros H. rewrite calculate_optimal_chunk_size_eq. unfold static_cast_int.
  destruct (raw_quotient d n m f); try discriminate H; split; reflexivity.
Qed.

(** X9: a NaN in any of the three floating-point arguments (R's [NA_real_] is
    one) makes the quotient a NaN.  Its conversion to [int] is undefined;
    x86-64 and AArch64 builds both return 1, or [total_rows] when that is
    smaller. *)
Theorem planner_nan_argument d n m f :
  d = S754_nan \/ m = S754_nan \/ f = S754_nan ->
  raw_quotient d n m f = S754_nan /\
  to_int (floor (raw_quotient d n m f)) = None /\
  calculate_optimal_chunk_size x86_64 d n m f = Returned (Z.min n 1) /\
  calculate_optimal_chunk_size aarch64 d n m f = Returned (Z.min n 1).
Proof.
  intros H.
  assert (E : raw_quotient d n m f = S754_nan).
  { unfold raw_quotient. destruct H as [-> | [-> | ->]].
    - apply div_nan_r.
    - change (mul S754_nan f) with S754_nan. now rewrite mul_nan_r.
    - now rewrite !mul_nan_r. }
  rewrite !calculate_optimal_chunk_size_eq, E. repeat split.
Qed.

(** A missing budget. *)
Lemma planner_nan_argument_witness :
  raw_quotient (of_Z 1000) 100000 S754_nan one_tenth = S754_nan /\
  to_int (floor (raw_quotient (of_Z 1000) 100000 S754_nan one_tenth)) = None /\
  calculate_optimal_chunk_size x86_64 (of_Z 1000) 100000 S754_nan one_tenth
    = Returned (Z.min 100000 1) /\
  calculate_optimal_chunk_size aarch64 (of_Z 1000) 100000 S754_nan one_tenth
    = Returned (Z.min 100000 1).
Proof.
  apply (planner_nan_argument (of_Z 1000) 100000 S754_nan one_tenth).
  right; left; reflexivity.
Defined.

(** X10: with [data_size_mb] equal to zero (of either sign) the quotient is an
    infinity or a NaN, whatever the other arguments are: the division is
    never trapped, the conversion to [int] is undefined, and an x86-64
    build returns 1, or [total_rows] when that is smaller. *)
Theorem planner_zero_data_size (s : bool) n m f :
  is_finite (raw_quotient (S754_zero s) n m f) = false /\
  to_int (floor (raw_quotient (S754_zero s) n m f)) = None /\
  calculate_optimal_chunk_size x86_64 (S754_zero s) n m f
    = Returned (Z.min n 1).
Proof.
  assert (H : is_finite (raw_quotient (S754_zero s) n m f) = false).
  { unfold raw_quotient.
    destruct (mul (of_Z n) (mul m f)); reflexivity. }
  split; [exact H | apply planner_without_finite_quotient, H].
Qed.

(** ** Process Memory Reader: the status file *)

Lemma substring_all (s : String.string) :
  String.substring 0 (String.length s) s = s.
Proof. induction s as [| c s IH]; simpl; congruence. Qed.

Lemma is_rss_line_field (rest : String.string) :
  is_rss_line ("VmRSS:" ++ rest)%string = true /\
  String.substring 6 (String.length ("VmRSS:" ++ rest)%string - 6)%nat
    ("VmRSS:" ++ rest)%string = rest.
Proof.
  split; [destruct rest; reflexivity |].
  simpl. rewrite Nat.sub_0_r. apply substring_all.
Qed.

Section ReaderFacts.

Variable extract_double : String.string -> option double.
Variable uninitialised : double.

Lemma scan_status_cons (line : String.string) (rest : list String.string) :
  scan_status extract_double uninitialised (line :: rest)
  = if is_rss_line line
    then div (match extract_double
                      (String.substring 6 (String.length line - 6)%nat line)
              with
              | Some stored => stored
              | None => uninitialised
              end) kib
    else scan_status extract_double uninitialised rest.
Proof. reflexivity. Qed.

Lemma scan_status_skip (pre rest : list String.string) :
  Forall (fun line => is_rss_line line = false) pre ->
  scan_status extract_double uninitialised (pre ++ rest)
  = scan_status extract_double uninitialised rest.
Proof.
  induction 1 as [| line pre Hline _ IH]; [reflexivity |].
  rewrite <- app_comm_cons, scan_status_cons, Hline. exact IH.
Qed.

(** The scan in two steps: find the field, then convert it. *)
Lemma scan_status_field (lines : list String.string) :
  scan_status extract_double uninitialised lines
  = match first_rss_field lines with
    | None => zero
    | Some text =>
        div (match extract_double text with
             | Some stored => stored
             | None => uninitialised
             end) kib
    end.
Proof.
  induction lines as [| line lines IH]; [reflexivity |].
  rewrite scan_status_cons. simpl first_rss_field.
  destruct (is_rss_line line); [reflexivity | exact IH].
Qed.

End ReaderFacts.

(** X12: where the status file can be opened, the first line that starts with
    [VmRSS:] decides the reading: the text after the field name goes to the
    extraction, and what the extraction stores is divided by 1024.  When the
    extraction stores nothing (a blank field), what is divided is whatever
    the uninitialised [rss_kb] holds.  Lines before it that do not start with
    the field name, every line after it, and the [getrusage] counter play no
    part. *)
Theorem get_ram_usage_first_rss_line
        (extract_double : String.string -> option double)
        (uninitialised : double) (p : platform)
        (os : os_state) (pre post : list String.string)
        (rest : String.string) :
  p <> Windows ->
  proc_status os = Some (pre ++ ("VmRSS:" ++ rest)%string :: post) ->
  Forall (fun line => is_rss_line line = false) pre ->
  get_ram_usage_cpp extract_double uninitialised p os
  = div (match extract_double rest with
         | Some stored => stored
         | None => uninitialised
         end) kib.
Proof.
  intros Hp Hos Hpre.
  assert (E : scan_status extract_double uninitialised
                (pre ++ ("VmRSS:" ++ rest)%string :: post)
              = div (match extract_double rest with
                     | Some stored => stored
                     | None => uninitialised
                     end) kib).
  { rewrite scan_status_skip by exact Hpre.
    destruct (is_rss_line_field rest) as [H1 H2].
    rewrite scan_status_cons, H1, H2. reflexivity. }
  destruct p; [congruence | |]; simpl; rewrite Hos; exact E.
Qed.

(** A status file as the kernel writes it, then the same file with a blank
    field.  The extraction stores 2048 for the first text and nothing for
    the blank one; 7.5 stands for what the uninitialised variable holds. *)
Lemma get_ram_usage_first_rss_line_witness :
  let extract := fun text =>
    if String.eqb text "	    2048 kB" then Some (of_Z 2048) else None in
  let held := div (of_Z 15) (of_Z 2) in
  get_ram_usage_cpp extract held Linux
    {| private_usage := None;
       proc_status := Some ["Name:	R"; "VmPeak:	  9000 kB";
                            "VmRSS:	    2048 kB"; "VmData:	  512 kB"]%string;
       ru_maxrss := 7 |}
  = div (of_Z 2048) kib /\
  get_ram_usage_cpp extract held Linux
    {| private_usage := None;
       proc_status := Some ["Name:	R"; "VmRSS:  "; "VmData:	  512 kB"]%string;
       ru_maxrss := 7 |}
  = div held kib.
Proof.
  cbv zeta. split.
  - refine (get_ram_usage_first_rss_line
             (fun text =>
                if String.eqb text "	    2048 kB"
                then Some (of_Z 2048) else None)
             (div (of_Z 15) (of_Z 2)) Linux
             {| private_usage := None;
                proc_status := Some ["Name:	R"; "VmPeak:	  9000 kB";
                                     "VmRSS:	    2048 kB";
                                     "VmData:	  512 kB"]%string;
                ru_maxrss := 7 |}
             ["Name:	R"; "VmPeak:	  9000 kB"]%string
             ["VmData:	  512 kB"]%string
             "	    2048 kB"%string _ _ _).
    + discriminate.
    + reflexivity.
    + repeat constructor.
  - refine (get_ram_usage_first_rss_line
             (fun text =>
                if String.eqb text "	    2048 kB"
                then Some (of_Z 2048) else None)
             (div (of_Z 15) (of_Z 2)) Linux
             {| private_usage := None;
                proc_status := Some ["Name:	R"; "VmRSS:  ";
                                     "VmData:	  512 kB"]%string;
                ru_maxrss := 7 |}
             ["Name:	R"]%string
             ["VmData:	  512 kB"]%string
             "  "%string _ _ _).
    + discriminate.
    + reflexivity.
    + repeat constructor.
Defined.

(** X13: where the status file can be opened and no line starts with [VmRSS:],
    the reading is [0.0]; there is no fall back to [getrusage]. *)
Theorem get_ram_usage_without_rss_line
        (extract_double : String.string -> option double)
        (uninitialised : double) (p : platform)
        (os : os_state) (lines : list String.string) :
  p <> Windows ->
  proc_status os = Some lines ->
  Forall (fun line => is_rss_line line = false) lines ->
  get_ram_usage_cpp extract_double uninitialised p os = zero.
Proof.
  intros Hp Hos Hlines.
  assert (E : scan_status extract_double uninitialised lines = zero).
  { rewrite <- (app_nil_r lines). now rewrite scan_status_skip. }
  destruct p; [congruence | |]; simpl; rewrite Hos; exact E.
Qed.

(** The status file of a process without a resident set, with a resident
    size known to [getrusage]. *)
Lemma get_ram_usage_without_rss_line_witness :
  get_ram_usage_cpp (fun _ => Some (of_Z 2048)) (of_Z 9) MacOS
    {| private_usage := None;
       proc_status := Some ["Name:	kthreadd"; "State:	S (sleeping)";
                            "Pid:	2"; "Threads:	1"]%string;
       ru_maxrss := 4096 |}
  = zero.
Proof.
  apply (get_ram_usage_without_rss_line
           (fun _ => Some (of_Z 2048)) (of_Z 9) MacOS
           {| private_usage := None;
              proc_status := Some ["Name:	kthreadd"; "State:	S (sleeping)";
                                   "Pid:	2"; "Threads:	1"]%string;
              ru_maxrss := 4096 |}
           ["Name:	kthreadd"; "State:	S (sleeping)";
            "Pid:	2"; "Threads:	1"]%string).
  - discriminate.
  - reflexivity.
  - repeat constructor.
Defined.

(** ** Process Memory Reader: the sign of a reading *)

Lemma shr_1_nonneg (mrs : shr_record) :
  0 <= shr_m mrs -> 0 <= shr_m (shr_1 mrs).
Proof.
  destruct mrs as [m r s]. simpl.
  destruct m as [| [p | p |] | p]; simpl; lia.
Qed.

Lemma iter_shr_1_nonneg (p : positive) (mrs : shr_record) :
  0 <= shr_m mrs -> 0 <= shr_m (iter_pos shr_1 p mrs).
Proof.
  revert mrs. induction p as [p IH | p IH |]; intros mrs H; simpl.
  - apply IH, IH, shr_1_nonneg, H.
  - apply IH, IH, H.
  - apply shr_1_nonneg, H.
Qed.

Lemma shr_fexp_nonneg (m e : Z) (l : location) :
  0 <= m -> 0 <= shr_m (fst (shr_fexp prec emax m e l)).
Proof.
  intros H. unfold shr_fexp, shr.
  assert (H0 : 0 <= shr_m (shr_record_of_loc m l))
    by (destruct l as [| []]; exact H).
  destruct (fexp prec emax (Zdigits2 m + e) - e); simpl; auto.
  apply iter_shr_1_nonneg, H0.
Qed.

Lemma round_nearest_even_nonneg (m : Z) (l : location) :
  0 <= m -> 0 <= round_nearest_even m l.
Proof.
  intros H. destruct l as [| []]; simpl; try lia.
  destruct (Z.even m); lia.
Qed.

(** A number that is not negative: a zero of either sign, a positive finite
    number or the positive infinity.  [le zero x] is the comparison
    [0.0 <= x]. *)
Lemma le_zero_cases (x : double) :
  le zero x = true <->
  (exists s, x = S754_zero s) \/ x = S754_infinity false \/
  (exists m e, x = S754_finite false m e).
Proof.
  split.
  - destruct x as [s | [] | | [] m e]; simpl; intros H; try discriminate H.
    + left; eexists; reflexivity.
    + right; left; reflexivity.
    + right; right; do 2 eexists; reflexivity.
  - intros [[s ->] | [-> | [m [e ->]]]]; reflexivity.
Qed.

(** Rounding a mantissa that is not negative, with the positive sign, gives
    a number that is not negative. *)
Lemma binary_round_aux_nonneg (m e : Z) (l : location) :
  0 <= m -> le zero (binary_round_aux prec emax false m e l) = true.
Proof.
  intros H. unfold binary_round_aux.
  pose proof (shr_fexp_nonneg m e l H) as H1.
  destruct (shr_fexp prec emax m e l) as [mrs' e']. simpl in H1.
  pose proof (shr_fexp_nonneg
                (round_nearest_even (shr_m mrs') (loc_of_shr_record mrs'))
                e' loc_Exact
                (round_nearest_even_nonneg _ _ H1)) as H2.
  destruct (shr_fexp prec emax _ e' loc_Exact) as [mrs'' e'']. simpl in H2.
  destruct (shr_m mrs'') as [| p | p]; [reflexivity | | lia].
  destruct (e'' <=? emax - prec); reflexivity.
Qed.

Lemma of_Z_nonneg (z : Z) : 0 <= z -> le zero (of_Z z) = true.
Proof.
  intros H. unfold of_Z, binary_normalize.
  destruct z as [| p | p]; [reflexivity | | lia].
  unfold binary_round.
  destruct (shl_align p 0 (fexp prec emax (Zpos (digits2_pos p) + 0)))
    as [mz ez].
  apply binary_round_aux_nonneg. lia.
Qed.

Lemma div_core_nonneg (m1 m2 : positive) (e1 e2 : Z) :
  0 <= fst (fst (SFdiv_core_binary prec emax (Zpos m1) e1 (Zpos m2) e2)).
Proof.
  unfold SFdiv_core_binary.
  set (s := e1 - e2 - _).
  set (m' := match s with
             | 0 => Zpos m1 | Zpos _ => Z.shiftl (Zpos m1) s | Zneg _ => 0
             end).
  assert (Hm : 0 <= m').
  { unfold m'. destruct s; try lia. apply Z.shiftl_nonneg. lia. }
  pose proof (Z_div_mod m' (Zpos m2) ltac:(lia)) as Hd.
  destruct (Z.div_eucl m' (Zpos m2)) as [q r]. simpl. nia.
Qed.

(** Dividing a number that is not negative by a positive finite one gives a
    number that is not negative. *)
Lemma div_nonneg (x : double) (m : positive) (e : Z) :
  le zero x = true -> le zero (div x (S754_finite false m e)) = true.
Proof.
  intros H. apply le_zero_cases in H.
  destruct H as [[s ->] | [-> | [mx [ex ->]]]].
  - destruct s; reflexivity.
  - reflexivity.
  - unfold div, SFdiv.
    pose proof (div_core_nonneg mx m ex e) as Hq.
    destruct (SFdiv_core_binary prec emax (Zpos mx) ex (Zpos m) e)
      as [[mz ez] lz].
    simpl in Hq. apply binary_round_aux_nonneg, Hq.
Qed.

Lemma kib_finite : kib = S754_finite false 4503599627370496 (-42).
Proof. reflexivity. Qed.

Lemma mib_finite : mib = S754_finite false 4503599627370496 (-32).
Proof. reflexivity. Qed.

(** X14: a reading is never negative and never a NaN, as long as what the
    reader is given on the path it takes is not negative: on Windows the
    working-set counter, when the query succeeds; elsewhere, when the status
    file can be opened and has a line that starts with [VmRSS:], the number
    the extraction stores for the field of the first such line (and it must
    store one); and when the status file cannot be opened, the [getrusage]
    counter.  Nothing is asked of the extraction on any other text, nor of
    what the uninitialised variable holds. *)
Theorem get_ram_usage_never_negative
        (extract_double : String.string -> option double)
        (uninitialised : double) (p : platform)
        (os : os_state) :
  (p = Windows -> forall bytes, private_usage os = Some bytes -> 0 <= bytes) ->
  (p <> Windows ->
   forall lines text,
     proc_status os = Some lines ->
     first_rss_field lines = Some text ->
     exists stored,
       extract_double text = Some stored /\ le zero stored = true) ->
  (p <> Windows -> proc_status os = None -> 0 <= ru_maxrss os) ->
  le zero (get_ram_usage_cpp extract_double uninitialised p os) = true.
Proof.
  intros Hpriv Hfield Hrss.
  assert (Hscan : p <> Windows -> forall lines,
             proc_status os = Some lines ->
             le zero (scan_status extract_double uninitialised lines) = true).
  { intros Hp lines Hos. rewrite scan_status_field.
    destruct (first_rss_field lines) as [text |] eqn:Ef; [| reflexivity].
    destruct (Hfield Hp lines text Hos Ef) as [stored [-> Hstored]].
    rewrite kib_finite. apply div_nonneg, Hstored. }
  destruct p; simpl.
  - destruct (private_usage os) as [bytes |] eqn:Eu; [| reflexivity].
    rewrite mib_finite.
    apply div_nonneg, of_Z_nonneg, (Hpriv eq_refl bytes eq_refl).
  - destruct (proc_status os) as [lines |] eqn:Eos.
    + apply Hscan; [discriminate | reflexivity].
    + rewrite mib_finite. apply div_nonneg, of_Z_nonneg, Hrss;
        [discriminate | reflexivity].
  - destruct (proc_status os) as [lines |] eqn:Eos.
    + apply Hscan; [discriminate | reflexivity].
    + rewrite kib_finite. apply div_nonneg, of_Z_nonneg, Hrss;
        [discriminate | reflexivity].
Qed.

(** The status-file path of a Linux build.  The extraction stores 2048 for
    the field of the deciding line and a negative number for every other
    text; the uninitialised variable holds a negative number as well. *)
Lemma get_ram_usage_never_negative_witness :
  le zero
     (get_ram_usage_cpp
        (fun text =>
           if String.eqb text "	    2048 kB"
           then Some (of_Z 2048) else Some (of_Z (-1)))
        (of_Z (-5)) Linux
        {| private_usage := Some (-4);
           proc_status := Some ["Name:	R"; "VmPeak:	  9000 kB";
                                "VmRSS:	    2048 kB";
                                "VmRSS:	    -77 kB"]%string;
           ru_maxrss := -3 |}) = true.
Proof.
  apply (get_ram_usage_never_negative
           (fun text =>
              if String.eqb text "	    2048 kB"
              then Some (of_Z 2048) else Some (of_Z (-1)))
           (of_Z (-5)) Linux
           {| private_usage := Some (-4);
              proc_status := Some ["Name:	R"; "VmPeak:	  9000 kB";
                                   "VmRSS:	    2048 kB";
                                   "VmRSS:	    -77 kB"]%string;
              ru_maxrss := -3 |}).
  - intros H. discriminate H.
  - intros _ lines text Hos Hf. simpl in Hos.
    injection Hos as <-. vm_compute in Hf. injection Hf as <-.
    exists (of_Z 2048). split; reflexivity.
  - intros _ H. discriminate H.
Defined.

(** ** RAM Threshold Monitor: lowering the ceiling *)

Lemma SFleb_SFltb_trans (a b c : double) :
  SFleb a b = true -> SFltb b c = true -> SFltb a c = true.
Proof.
  unfold SFleb, SFltb.
  destruct a as [sa | sa | | sa ma ea], b as [sb | sb | | sb mb eb],
           c as [sc | sc | | sc mc ec]; simpl;
    try discriminate; try reflexivity;
    try (destruct sa; simpl; try discriminate; try reflexivity);
    try (destruct sb; simpl; try discriminate; try reflexivity);
    try (destruct sc; simpl; try discriminate; try reflexivity);
    change (Pos.compare_cont Eq) with (fun p q => Zpos p ?= Zpos q);
    cbv beta;
    repeat match goal with
    | H : context [?x ?= ?y] |- _ => destruct (Z.compare_spec x y)
    | |- context [?x ?= ?y] => destruct (Z.compare_spec x y)
    end; simpl;
    try discriminate; try reflexivity; try lia.
Qed.

(** X15: when the monitor reports the ceiling exceeded, it reports every lower
    ceiling exceeded too, for the same reading. *)
Theorem ram_threshold_monotone
        (extract_double : String.string -> option double)
        (uninitialised : double) (p : platform)
        (os : os_state) (ceiling lower : double) :
  le lower ceiling = true ->
  ram_threshold_exceeded extract_double uninitialised p os ceiling = true ->
  ram_threshold_exceeded extract_double uninitialised p os lower = true.
Proof.
  unfold ram_threshold_exceeded, gt, le. apply SFleb_SFltb_trans.
Qed.

(** A reading of 100 MiB against ceilings of 50 and 40. *)
Lemma ram_threshold_monotone_witness :
  ram_threshold_exceeded (fun _ => Some zero) zero Linux
    {| private_usage := None; proc_status := None; ru_maxrss := 102400 |}
    (of_Z 40) = true.
Proof.
  apply (ram_threshold_monotone (fun _ => Some zero) zero Linux
           {| private_usage := None; proc_status := None;
              ru_maxrss := 102400 |} (of_Z 50) (of_Z 40));
    reflexivity.
Defined.

(** ** Binary64: integers and powers of two without rounding *)

Lemma digits2_pos_bounds (p : positive) :
  2 ^ (Zpos (digits2_pos p) - 1) <= Zpos p < 2 ^ Zpos (digits2_pos p).
Proof.
  induction p as [p IH | p IH |]; simpl digits2_pos.
  - rewrite Pos2Z.inj_succ.
    replace (Z.succ (Zpos (digits2_pos p)) - 1)
      with (Z.succ (Zpos (digits2_pos p) - 1)) by lia.
    rewrite !Z.pow_succ_r by lia. lia.
  - rewrite Pos2Z.inj_succ.
    replace (Z.succ (Zpos (digits2_pos p)) - 1)
      with (Z.succ (Zpos (digits2_pos p) - 1)) by lia.
    rewrite !Z.pow_succ_r by lia. lia.
  - simpl. lia.
Qed.

Lemma digits2_pos_unique (p : positive) (d : Z) :
  2 ^ (d - 1) <= Zpos p < 2 ^ d -> Zpos (digits2_pos p) = d.
Proof.
  intros H. pose proof (digits2_pos_bounds p) as B.
  assert (0 < d).
  { destruct (Z.ltb_spec 0 d); [assumption |].
    destruct (Z.eq_dec d 0) as [-> | ]; [simpl in H; lia |].
    rewrite (Z.pow_neg_r 2 d) in H by lia. lia. }
  destruct (Z.lt_trichotomy (Zpos (digits2_pos p)) d) as [L | [E | G]];
    [| exact E |].
  - assert (2 ^ Zpos (digits2_pos p) <= 2 ^ (d - 1))
      by (apply Z.pow_le_mono_r; lia). lia.
  - assert (2 ^ d <= 2 ^ (Zpos (digits2_pos p) - 1))
      by (apply Z.pow_le_mono_r; lia). lia.
Qed.

(** canonical *)
Lemma binary_round_aux_canonical (s : bool) (m : positive) (e : Z) :
  Zpos (digits2_pos m) = 53 -> -1074 <= e <= 971 ->
  binary_round_aux prec emax s (Zpos m) e loc_Exact = S754_finite s m e.
Proof.
  intros Hd He.
  assert (Hs : shr_fexp prec emax (Zpos m) e loc_Exact
               = ({| shr_m := Zpos m; shr_r := false; shr_s := false |}, e)).
  { unfold shr_fexp, fexp, emin, prec, emax. simpl Zdigits2. rewrite Hd.
    replace (Z.max (53 + e - 53) (3 - 1024 - 53) - e) with 0 by lia.
    reflexivity. }
  unfold binary_round_aux. rewrite Hs. simpl loc_of_shr_record.
  simpl round_nearest_even. cbv beta iota. simpl shr_m at 1.
  unfold round_nearest_even. rewrite Hs. simpl shr_m.
  unfold prec, emax.
  destruct (Z.leb_spec e (1024 - 53)); [reflexivity | lia].
Qed.

Lemma binary_round_canonical (s : bool) (p : positive) :
  Zpos p < 2 ^ 53 ->
  exists m,
    binary_round prec emax s p 0
      = S754_finite s m (Zpos (digits2_pos p) - 53) /\
    Zpos m = Zpos p * 2 ^ (53 - Zpos (digits2_pos p)) /\
    Zpos (digits2_pos m) = 53.
Proof.
  intros Hp. pose proof (digits2_pos_bounds p) as B.
  set (d := Zpos (digits2_pos p)) in *.
  assert (Hd : 1 <= d <= 53).
  { split; [unfold d; lia |].
    destruct (Z.leb_spec d 53); [assumption |].
    assert (2 ^ 53 <= 2 ^ (d - 1)) by (apply Z.pow_le_mono_r; lia). lia. }
  unfold binary_round.
  fold d. unfold fexp, emin, prec, emax.
  replace (Z.max (d + 0 - 53) (3 - 1024 - 53)) with (d - 53) by lia.
  unfold shl_align.
  destruct (d - 53 - 0) as [| k | k] eqn:E; [| lia |].
  - exists p. fold d. replace (53 - d) with 0 by lia.
    replace (d - 53) with 0 by lia.
    split; [| split; [lia | unfold d in *; lia]].
    apply binary_round_aux_canonical; unfold d in *; lia.
  - assert (Hk : Zpos k = 53 - d) by lia.
    assert (Hv : Zpos (Pos.iter xO p k) = Zpos p * 2 ^ (53 - d)).
    { change (Pos.iter xO p k) with (shift_pos k p).
      rewrite shift_pos_correct, <- Hk.
      change (Z.pow_pos 2 k) with (2 ^ Zpos k). lia. }
    assert (Hdig : Zpos (digits2_pos (Pos.iter xO p k)) = 53).
    { apply digits2_pos_unique. rewrite Hv.
      replace (2 ^ (53 - 1)) with (2 ^ (d - 1) * 2 ^ (53 - d))
        by (rewrite <- Z.pow_add_r by lia; f_equal; lia).
      replace (2 ^ 53) with (2 ^ d * 2 ^ (53 - d))
        by (rewrite <- Z.pow_add_r by lia; f_equal; lia).
      assert (0 < 2 ^ (53 - d)) by (apply Z.pow_pos_nonneg; lia).
      nia. }
    exists (Pos.iter xO p k). fold d.
    split; [| split; assumption].
    apply binary_round_aux_canonical; lia.
Qed.

(** An integer below [2^53] in magnitude converts without rounding: its
    mantissa is the integer shifted to 53 bits. *)
Lemma of_Z_pos_canonical (p : positive) :
  Zpos p < 2 ^ 53 ->
  exists m, of_Z (Zpos p) = S754_finite false m (Zpos (digits2_pos p) - 53) /\
            Zpos m = Zpos p * 2 ^ (53 - Zpos (digits2_pos p)) /\
            Zpos (digits2_pos m) = 53.
Proof. apply binary_round_canonical. Qed.

Lemma of_Z_finite (z : Z) :
  - 2 ^ 53 < z < 2 ^ 53 -> is_finite (of_Z z) = true.
Proof.
  intros H. destruct z as [| p | p]; [reflexivity | |].
  - destruct (binary_round_canonical false p) as [m [E _]]; [lia |].
    unfold of_Z, binary_normalize. now rewrite E.
  - destruct (binary_round_canonical true p) as [m [E _]]; [lia |].
    unfold of_Z, binary_normalize. now rewrite E.
Qed.

Lemma div_eucl_pair (a b : Z) : Z.div_eucl a b = (a / b, a mod b).
Proof.
  unfold Z.div, Z.modulo. destruct (Z.div_eucl a b); reflexivity.
Qed.

(** Division of a canonical number by a power of two: the mantissa is kept
    and the exponent shifted. *)
Lemma div_pow2_canonical (s : bool) (m : positive) (e ey : Z) :
  Zpos (digits2_pos m) = 53 ->
  -1073 <= e - ey - 52 <= 971 ->
  div (S754_finite s m e) (S754_finite false 4503599627370496 ey)
  = S754_finite s m (e - ey - 52).
Proof.
  intros Hd He. unfold div, SFdiv, SFdiv_core_binary.
  simpl Zdigits2. rewrite Hd.
  change (Zpos (digits2_pos 4503599627370496)) with 53.
  unfold fexp, emin, prec, emax.
  replace (Z.min (Z.max (53 + e - (53 + ey) - 53) (3 - 1024 - 53)) (e - ey))
    with (e - ey - 53) by lia.
  replace (e - ey - (e - ey - 53)) with 53 by lia.
  cbv iota. rewrite Z.shiftl_mul_pow2 by lia.
  rewrite div_eucl_pair.
  replace (Zpos m * 2 ^ 53) with (Zpos m~0 * 4503599627370496) by lia.
  rewrite Z.div_mul, Z.mod_mul by lia.
  change (new_location 4503599627370496 0) with loc_Exact.
  rewrite xorb_false_r.
  assert (Hs : shr_fexp 53 1024 (Zpos m~0) (e - ey - 53) loc_Exact
               = ({| shr_m := Zpos m; shr_r := false; shr_s := false |},
                  e - ey - 52)).
  { unfold shr_fexp, fexp, emin. simpl Zdigits2. rewrite Pos2Z.inj_succ, Hd.
    replace (Z.max (Z.succ 53 + (e - ey - 53) - 53) (3 - 1024 - 53)
             - (e - ey - 53)) with 1 by lia.
    unfold shr. simpl iter_pos. f_equal. lia. }
  unfold binary_round_aux. rewrite Hs.
  simpl loc_of_shr_record. simpl shr_m at 1. unfold round_nearest_even.
  assert (Hs2 : shr_fexp 53 1024 (Zpos m) (e - ey - 52) loc_Exact
               = ({| shr_m := Zpos m; shr_r := false; shr_s := false |},
                  e - ey - 52)).
  { unfold shr_fexp, fexp, emin. simpl Zdigits2. rewrite Hd.
    replace (Z.max (53 + (e - ey - 52) - 53) (3 - 1024 - 53)
             - (e - ey - 52)) with 0 by lia.
    reflexivity. }
  rewrite Hs2. simpl shr_m.
  destruct (Z.leb_spec (e - ey - 52) (1024 - 53)); [reflexivity | lia].
Qed.

(** Two positive numbers with 53-bit mantissas compare as their values do,
    here scaled to integers by a common power of two. *)
Lemma compare_canonical (m1 m2 : positive) (e1 e2 e0 : Z) :
  Zpos (digits2_pos m1) = 53 -> Zpos (digits2_pos m2) = 53 ->
  e0 <= e1 -> e0 <= e2 ->
  SFcompare (S754_finite false m1 e1) (S754_finite false m2 e2)
  = Some (Zpos m1 * 2 ^ (e1 - e0) ?= Zpos m2 * 2 ^ (e2 - e0)).
Proof.
  intros H1 H2 L1 L2. unfold SFcompare. f_equal.
  pose proof (digits2_pos_bounds m1) as B1.
  pose proof (digits2_pos_bounds m2) as B2.
  rewrite H1 in B1. rewrite H2 in B2.
  change (2 ^ (53 - 1)) with 4503599627370496 in *.
  change (2 ^ 53) with 9007199254740992 in *.
  assert (P : forall a b, 0 <= a -> a < b -> 2 * 2 ^ a <= 2 ^ b).
  { intros a b Ha Hab. rewrite <- Z.pow_succ_r by lia.
    apply Z.pow_le_mono_r; lia. }
  assert (Q : forall a, 0 <= a -> 0 < 2 ^ a)
    by (intros; apply Z.pow_pos_nonneg; lia).
  destruct (Z.compare_spec e1 e2) as [E | L | G].
  - subst e2. pose proof (Q (e1 - e0) ltac:(lia)).
    change (Pos.compare_cont Eq m1 m2) with (Zpos m1 ?= Zpos m2).
    destruct (Z.compare_spec (Zpos m1) (Zpos m2)) as [E | L | G]; symmetry.
    + apply Z.compare_eq_iff. injection E as ->. reflexivity.
    + apply Z.compare_lt_iff. apply Z.mul_lt_mono_pos_r; assumption.
    + apply Z.compare_gt_iff. apply Z.mul_lt_mono_pos_r; assumption.
  - symmetry. apply Z.compare_lt_iff.
    pose proof (P (e1 - e0) (e2 - e0) ltac:(lia) ltac:(lia)).
    pose proof (Q (e1 - e0) ltac:(lia)). nia.
  - symmetry. apply Z.compare_gt_iff.
    pose proof (P (e2 - e0) (e1 - e0) ltac:(lia) ltac:(lia)).
    pose proof (Q (e2 - e0) ltac:(lia)). nia.
Qed.

Lemma of_Z_scaled (p : positive) (j : Z) :
  0 <= j -> Zpos p * 2 ^ j < 2 ^ 53 ->
  exists m,
    of_Z (Zpos p) = S754_finite false m (Zpos (digits2_pos p) - 53) /\
    of_Z (Zpos p * 2 ^ j)
      = S754_finite false m (Zpos (digits2_pos p) - 53 + j) /\
    Zpos m = Zpos p * 2 ^ (53 - Zpos (digits2_pos p)) /\
    Zpos (digits2_pos m) = 53.
Proof.
  intros Hj Hlt.
  assert (Hpow : 0 < 2 ^ j) by (apply Z.pow_pos_nonneg; lia).
  pose proof (digits2_pos_bounds p) as B.
  set (d := Zpos (digits2_pos p)) in *.
  assert (Hd : 1 <= d) by (unfold d; lia).
  destruct (of_Z_pos_canonical p) as [m [E [V D]]]; [nia |].
  fold d in E, V.
  destruct (Zpos p * 2 ^ j) as [| q | q] eqn:Eq; [lia | | lia].
  assert (Dq : Zpos (digits2_pos q) = d + j).
  { apply digits2_pos_unique. rewrite <- Eq.
    replace (d + j - 1) with (d - 1 + j) by lia.
    rewrite !Z.pow_add_r by lia. nia. }
  destruct (of_Z_pos_canonical q) as [mq [E' [V' D']]]; [lia |].
  rewrite Dq in E', V'.
  assert (Hdj : d + j <= 53).
  { pose proof (digits2_pos_bounds q) as Bq. rewrite Dq in Bq.
    destruct (Z.leb_spec (d + j) 53); [assumption |].
    assert (2 ^ 53 <= 2 ^ (d + j - 1)) by (apply Z.pow_le_mono_r; lia).
    lia. }
  assert (mq = m).
  { apply Pos2Z.inj. rewrite V', V, <- Eq, <- Z.mul_assoc.
    rewrite <- Z.pow_add_r by lia. do 2 f_equal. lia. }
  subst mq. exists m. repeat split; try assumption.
  rewrite E'. f_equal. lia.
Qed.

Lemma represents_inj (x y : double) (p : positive) (c : Z) :
  represents x p c -> represents y p c -> x = y.
Proof.
  intros [m [-> [V _]]] [m' [-> [V' _]]].
  assert (m = m') by (apply Pos2Z.inj; congruence). now subst.
Qed.

Lemma represents_at (x : double) (p : positive) (c c' : Z) :
  c = c' -> represents x p c -> represents x p c'.
Proof. now intros ->. Qed.

Lemma digits2_pos_le_53 (p : positive) :
  Zpos p < 2 ^ 53 -> 1 <= Zpos (digits2_pos p) <= 53.
Proof.
  intros H. pose proof (digits2_pos_bounds p) as B. split; [lia |].
  destruct (Z.leb_spec (Zpos (digits2_pos p)) 53); [assumption |].
  assert (2 ^ 53 <= 2 ^ (Zpos (digits2_pos p) - 1))
    by (apply Z.pow_le_mono_r; lia).
  lia.
Qed.

Lemma of_Z_represents (p : positive) (j : Z) :
  0 <= j -> Zpos p * 2 ^ j < 2 ^ 53 ->
  represents (of_Z (Zpos p * 2 ^ j)) p j.
Proof.
  intros Hj Hlt. destruct (of_Z_scaled p j Hj Hlt) as [m [_ [E [V D]]]].
  exists m. auto.
Qed.

Lemma div_represents (x : double) (p : positive) (c ey : Z) :
  Zpos p < 2 ^ 53 ->
  represents x p c -> -1020 <= c - ey - 52 <= 918 ->
  represents (div x (S754_finite false 4503599627370496 ey)) p (c - ey - 52).
Proof.
  intros Hp [m [-> [V D]]] Hc. pose proof (digits2_pos_le_53 p Hp).
  exists m. split; [| split; assumption].
  rewrite div_pow2_canonical by (assumption || lia). f_equal. lia.
Qed.

Lemma compare_represents (xa xb : double) (pa pb : positive) (ca cb c0 : Z) :
  Zpos pa < 2 ^ 53 -> Zpos pb < 2 ^ 53 ->
  represents xa pa ca -> represents xb pb cb ->
  c0 <= ca -> c0 <= cb ->
  SFcompare xa xb
  = Some (Zpos pa * 2 ^ (ca - c0) ?= Zpos pb * 2 ^ (cb - c0)).
Proof.
  intros Ha Hb [ma [-> [Va Da]]] [mb [-> [Vb Db]]] La Lb.
  pose proof (digits2_pos_le_53 pa Ha) as Ba.
  pose proof (digits2_pos_le_53 pb Hb) as Bb.
  set (da := Zpos (digits2_pos pa)) in *.
  set (db := Zpos (digits2_pos pb)) in *.
  rewrite (compare_canonical ma mb _ _ (c0 - 53)) by (assumption || lia).
  rewrite Va, Vb. f_equal.
  replace (da - 53 + ca - (c0 - 53)) with ((ca - c0) + da) by lia.
  replace (db - 53 + cb - (c0 - 53)) with ((cb - c0) + db) by lia.
  rewrite !Z.pow_add_r by lia.
  assert (Ea : Zpos pa * 2 ^ (53 - da) * (2 ^ (ca - c0) * 2 ^ da)
               = Zpos pa * 2 ^ (ca - c0) * 2 ^ 53).
  { replace (2 ^ 53) with (2 ^ (53 - da) * 2 ^ da)
      by (rewrite <- Z.pow_add_r by lia; f_equal; lia). ring. }
  assert (Eb : Zpos pb * 2 ^ (53 - db) * (2 ^ (cb - c0) * 2 ^ db)
               = Zpos pb * 2 ^ (cb - c0) * 2 ^ 53).
  { replace (2 ^ 53) with (2 ^ (53 - db) * 2 ^ db)
      by (rewrite <- Z.pow_add_r by lia; f_equal; lia). ring. }
  rewrite Ea, Eb.
  set (A := Zpos pa * 2 ^ (ca - c0)). set (B := Zpos pb * 2 ^ (cb - c0)).
  change (2 ^ 53) with 9007199254740992.
  destruct (Z.compare_spec A B) as [E | L | G].
  - apply Z.compare_eq_iff. lia.
  - apply Z.compare_lt_iff. lia.
  - apply Z.compare_gt_iff. lia.
Qed.

Lemma of_Z_pos_represents (p : positive) :
  Zpos p < 2 ^ 53 -> represents (of_Z (Zpos p)) p 0.
Proof.
  intros H.
  replace (of_Z (Zpos p)) with (of_Z (Zpos p * 2 ^ 0)) by (f_equal; lia).
  apply of_Z_represents; lia.
Qed.

(** ** Process Memory Reader: units *)

(** X16: on the [getrusage] path the same resident size, reported in bytes by
    macOS and in KiB by Linux, gives the same reading (below 8 PiB). *)
Theorem get_ram_usage_units
        (extract_double : String.string -> option double)
        (uninitialised : double)
        (usage : option Z) (z : Z) :
  0 <= z -> 1024 * z < 2 ^ 53 ->
  get_ram_usage_cpp extract_double uninitialised MacOS
    {| private_usage := usage; proc_status := None; ru_maxrss := 1024 * z |}
  = get_ram_usage_cpp extract_double uninitialised Linux
      {| private_usage := usage; proc_status := None; ru_maxrss := z |}.
Proof.
  intros Hz Hlt. unfold get_ram_usage_cpp.
  cbn [proc_status ru_maxrss private_usage].
  destruct z as [| p | p]; [reflexivity | | lia].
  rewrite kib_finite, mib_finite.
  apply (represents_inj _ _ p (-10)).
  - replace (1024 * Zpos p) with (Zpos p * 2 ^ 10) by lia.
    apply (represents_at _ p (10 - -32 - 52)); [lia |].
    apply div_represents; [lia | apply of_Z_represents; lia | lia].
  - replace (of_Z (Zpos p)) with (of_Z (Zpos p * 2 ^ 0))
      by (f_equal; lia).
    apply (represents_at _ p (0 - -42 - 52)); [lia |].
    apply div_represents; [lia | apply of_Z_represents; lia | lia].
Qed.

(** 300 KiB. *)
Lemma get_ram_usage_units_witness :
  get_ram_usage_cpp (fun _ => Some zero) zero MacOS
    {| private_usage := None; proc_status := None; ru_maxrss := 1024 * 300 |}
  = get_ram_usage_cpp (fun _ => Some zero) zero Linux
      {| private_usage := None; proc_status := None; ru_maxrss := 300 |}.
Proof.
  apply (get_ram_usage_units (fun _ => Some zero) zero None 300); simpl; lia.
Defined.

(** X17: a resident size of [k] whole MiB reads as exactly [k], from the KiB
    counter of Linux, from the byte counter of macOS and from the byte
    counter of Windows. *)
Theorem get_ram_usage_whole_mib
        (extract_double : String.string -> option double)
        (uninitialised : double)
        (usage : option Z) (status : option (list String.string))
        (rss k : Z) :
  0 <= k -> 1048576 * k < 2 ^ 53 ->
  get_ram_usage_cpp extract_double uninitialised Linux
    {| private_usage := usage; proc_status := None; ru_maxrss := 1024 * k |}
  = of_Z k /\
  get_ram_usage_cpp extract_double uninitialised MacOS
    {| private_usage := usage; proc_status := None;
       ru_maxrss := 1048576 * k |}
  = of_Z k /\
  get_ram_usage_cpp extract_double uninitialised Windows
    {| private_usage := Some (1048576 * k); proc_status := status;
       ru_maxrss := rss |}
  = of_Z k.
Proof.
  intros Hk Hlt. unfold get_ram_usage_cpp.
  cbn [proc_status ru_maxrss private_usage].
  destruct k as [| p | p]; [repeat split | | lia].
  rewrite kib_finite, mib_finite.
  assert (R : represents (of_Z (Zpos p)) p 0).
  { replace (of_Z (Zpos p)) with (of_Z (Zpos p * 2 ^ 0)) by (f_equal; lia).
    apply of_Z_represents; lia. }
  repeat split; apply (represents_inj _ _ p 0); try exact R.
  - replace (1024 * Zpos p) with (Zpos p * 2 ^ 10) by lia.
    apply (represents_at _ p (10 - -42 - 52)); [lia |].
    apply div_represents; [lia | apply of_Z_represents; lia | lia].
  - replace (1048576 * Zpos p) with (Zpos p * 2 ^ 20) by lia.
    apply (represents_at _ p (20 - -32 - 52)); [lia |].
    apply div_represents; [lia | apply of_Z_represents; lia | lia].
  - replace (1048576 * Zpos p) with (Zpos p * 2 ^ 20) by lia.
    apply (represents_at _ p (20 - -32 - 52)); [lia |].
    apply div_represents; [lia | apply of_Z_represents; lia | lia].
Qed.

(** 100 MiB. *)
Lemma get_ram_usage_whole_mib_witness :
  get_ram_usage_cpp (fun _ => Some zero) zero Linux
    {| private_usage := None; proc_status := None;
       ru_maxrss := 1024 * 100 |}
  = of_Z 100 /\
  get_ram_usage_cpp (fun _ => Some zero) zero MacOS
    {| private_usage := None; proc_status := None;
       ru_maxrss := 1048576 * 100 |}
  = of_Z 100 /\
  get_ram_usage_cpp (fun _ => Some zero) zero Windows
    {| private_usage := Some (1048576 * 100); proc_status := None;
       ru_maxrss := 0 |}
  = of_Z 100.
Proof.
  apply (get_ram_usage_whole_mib (fun _ => Some zero) zero None None 0 100);
    simpl; lia.
Defined.

Lemma scaled_div_le (a b ey : Z) :
  0 <= a <= b -> b < 2 ^ 53 -> -100 <= ey <= 0 ->
  le (div (of_Z a) (S754_finite false 4503599627370496 ey))
     (div (of_Z b) (S754_finite false 4503599627370496 ey)) = true.
Proof.
  intros Hab Hb He.
  destruct a as [| pa | pa]; [| | lia].
  - change (div (of_Z 0) (S754_finite false 4503599627370496 ey)) with zero.
    apply div_nonneg, of_Z_nonneg. lia.
  - destruct b as [| pb | pb]; [lia | | lia].
    unfold le, SFleb.
    rewrite (compare_represents _ _ pa pb (0 - ey - 52) (0 - ey - 52)
               (0 - ey - 52)); try lia;
      try (apply div_represents;
           [lia | apply of_Z_pos_represents; lia | lia]).
    rewrite Z.sub_diag, Z.mul_1_r, Z.mul_1_r.
    destruct (Z.compare_spec (Zpos pa) (Zpos pb)); [reflexivity .. | lia].
Qed.

(** X18: on the [getrusage] path a larger counter never gives a lower
    reading. *)
Theorem get_ram_usage_monotone
        (extract_double : String.string -> option double)
        (uninitialised : double) (p : platform)
        (usage : option Z) (z1 z2 : Z) :
  p <> Windows -> 0 <= z1 <= z2 -> z2 < 2 ^ 53 ->
  le (get_ram_usage_cpp extract_double uninitialised p
        {| private_usage := usage; proc_status := None; ru_maxrss := z1 |})
     (get_ram_usage_cpp extract_double uninitialised p
        {| private_usage := usage; proc_status := None; ru_maxrss := z2 |})
  = true.
Proof.
  intros Hp Hz Hlt. unfold get_ram_usage_cpp.
  cbn [proc_status ru_maxrss private_usage].
  destruct p; [congruence | |].
  - rewrite mib_finite. apply scaled_div_le; lia.
  - rewrite kib_finite. apply scaled_div_le; lia.
Qed.

(** 300 KiB and 301 KiB. *)
Lemma get_ram_usage_monotone_witness :
  le (get_ram_usage_cpp (fun _ => Some zero) zero Linux
        {| private_usage := None; proc_status := None; ru_maxrss := 300 |})
     (get_ram_usage_cpp (fun _ => Some zero) zero Linux
        {| private_usage := None; proc_status := None; ru_maxrss := 301 |})
  = true.
Proof.
  apply (get_ram_usage_monotone (fun _ => Some zero) zero Linux None 300 301);
    [discriminate | lia | simpl; lia].
Defined.

(** ** RAM Threshold Monitor: whole-number ceilings *)

(** X19: on the [getrusage] path of a Linux build, with a ceiling of [M] whole
    MiB, the monitor answers true exactly when the counter is above
    [1024 * M] KiB: the conversion to MiB loses nothing. *)
Theorem ram_threshold_exact
        (extract_double : String.string -> option double)
        (uninitialised : double)
        (usage : option Z) (z M : Z) :
  0 <= z < 2 ^ 53 -> 0 <= M < 2 ^ 53 ->
  ram_threshold_exceeded extract_double uninitialised Linux
    {| private_usage := usage; proc_status := None; ru_maxrss := z |}
    (of_Z M)
  = (1024 * M <? z).
Proof.
  intros Hz HM. unfold ram_threshold_exceeded, get_ram_usage_cpp.
  cbn [proc_status ru_maxrss private_usage]. unfold gt, SFltb.
  destruct z as [| pz | pz]; [| | lia].
  - change (div (of_Z 0) kib) with zero.
    destruct M as [| pM | pM]; [reflexivity | | lia].
    destruct (of_Z_pos_represents pM) as [m [-> _]]; [lia |].
    reflexivity.
  - assert (Rz : represents (div (of_Z (Zpos pz)) kib) pz (-10)).
    { rewrite kib_finite.
      apply (represents_at _ pz (0 - -42 - 52)); [lia |].
      apply div_represents; [lia | apply of_Z_pos_represents; lia | lia]. }
    destruct M as [| pM | pM]; [| | lia].
    + destruct Rz as [m [-> _]]. reflexivity.
    + rewrite (compare_represents _ _ pM pz 0 (-10) (-10))
        by (lia || assumption || (apply of_Z_pos_represents; lia)).
      unfold Z.ltb.
      replace (Zpos pM * 2 ^ (0 - -10)) with (1024 * Zpos pM) by lia.
      replace (Zpos pz * 2 ^ (-10 - -10)) with (Zpos pz) by lia.
      reflexivity.
Qed.

(** One KiB above a ceiling of 50 MiB. *)
Lemma ram_threshold_exact_witness :
  ram_threshold_exceeded (fun _ => Some zero) zero Linux
    {| private_usage := None; proc_status := None; ru_maxrss := 51201 |}
    (of_Z 50)
  = (1024 * 50 <? 51201).
Proof.
  apply (ram_threshold_exact (fun _ => Some zero) zero None 51201 50);
    simpl; lia.
Defined.

(** ** System Memory Reporter *)




(** ** Chunk Size Planner: a budget of zero *)

(** X11: when [target_chunk_ram] is zero and [data_size_mb] is neither zero nor
    a NaN, the raw value is zero and the planner returns 1 (or [total_rows]
    when that is smaller), on every target. *)
Theorem planner_zero_budget (t : target) d n m f (sb : bool) :
  mul m f = S754_zero sb ->
  - 2 ^ 53 < n < 2 ^ 53 ->
  d <> S754_nan -> (forall s, d <> S754_zero s) ->
  calculate_optimal_chunk_size t d n m f = Returned (Z.min n 1).
Proof.
  intros Hb Hn Hnan Hzero.
  rewrite calculate_optimal_chunk_size_eq. unfold raw_quotient. rewrite Hb.
  pose proof (of_Z_finite n Hn) as Hf.
  assert (E : exists s, div (mul (of_Z n) (S754_zero sb)) d = S754_zero s).
  { destruct (of_Z n) as [sn | sn | | sn mn en]; try discriminate Hf;
      destruct d as [sd | sd | | sd md ed];
      try congruence; try (exfalso; apply (Hzero sd); reflexivity);
      simpl; eexists; reflexivity. }
  destruct E as [s ->]. reflexivity.
Qed.

(** No RAM at all for 100000 rows. *)
Lemma planner_zero_budget_witness :
  calculate_optimal_chunk_size x86_64 (of_Z 1000) 100000 zero one_tenth
  = Returned (Z.min 100000 1).
Proof.
  apply (planner_zero_budget x86_64 (of_Z 1000) 100000 zero one_tenth false).
  - reflexivity.
  - simpl. lia.
  - discriminate.
  - intros s. discriminate.
Defined.
